(** * Document ingestion, chunking and keyword retrieval of the study-assistant backend

    A shallow embedding of the three request handlers of [server.js] that make up
    the document pipeline:

    - [POST /api/upload]    (chunking of the extracted text, writing of the
                              [<filename>.meta.json] sidecar),
    - [POST /api/file-qa]   (keyword scoring and selection of context chunks),
    - [POST /api/file-quiz] (quiz generation from the first chunks).

    JavaScript strings are sequences of UTF-16 code units; [String.prototype.length],
    [slice], [split] and [trim] all work on code units, so a string is modelled as
    a list of code units.  Platform services the handlers call but do not define
    ([Date.now], [String.prototype.toLowerCase], [path.join], [JSON.stringify],
    [JSON.parse], the language-model client) are Section variables. *)

From Stdlib Require Import NArith ZArith Ascii String DecimalString DecimalN Sorted FinFun Lia.
From stdpp Require Import base list gmap.

Local Open Scope nat_scope.

(** ** JavaScript strings *)

Definition code_unit := N.
Definition jsstring := list code_unit.

(** A string literal of the source (all literals of the pipeline are ASCII). *)
Definition js (s : string) : jsstring := map N_of_ascii (list_ascii_of_string s).

Definition code_unit_eqb (a b : code_unit) : bool := N.eqb a b.

Fixpoint jsstring_eqb (a b : jsstring) : bool :=
  match a, b with
  | [], [] => true
  | x :: a', y :: b' => code_unit_eqb x y && jsstring_eqb a' b'
  | _, _ => false
  end.

(** [Boolean(s)] for a string: the empty string is the only falsy one. *)
Definition truthy (s : jsstring) : bool :=
  match s with [] => false | _ :: _ => true end.

(** [s.slice(b, e)] for non-negative integer arguments. *)
Definition slice (s : jsstring) (b e : nat) : jsstring := firstn (e - b) (skipn b s).

(** ECMAScript WhiteSpace and LineTerminator code points, the set [trim] strips. *)
Definition is_js_whitespace (c : code_unit) : bool :=
  ((9 <=? c) && (c <=? 13) || (c =? 32) || (c =? 160) || (c =? 5760)
   || (8192 <=? c) && (c <=? 8202) || (c =? 8232) || (c =? 8233)
   || (c =? 8239) || (c =? 8287) || (c =? 12288) || (c =? 65279))%N.

Fixpoint trimStart (s : jsstring) : jsstring :=
  match s with
  | [] => []
  | c :: t => if is_js_whitespace c then trimStart t else s
  end.

Definition trimEnd (s : jsstring) : jsstring := rev (trimStart (rev s)).

Definition trim (s : jsstring) : jsstring := trimEnd (trimStart s).

(** [s.split(/C+/)] for a character class [C]: the pieces between the maximal
    runs of separator characters.  A leading or trailing run leaves an empty
    piece at that end, as in JavaScript.  [cur] is the piece being read, in
    reverse; [in_run] tells that the previous character was a separator. *)
Fixpoint split_runs (sep : code_unit -> bool) (s cur : jsstring) (in_run : bool)
  : list jsstring :=
  match s with
  | [] => [rev cur]
  | c :: t =>
      if sep c
      then (if in_run then split_runs sep t cur true
            else rev cur :: split_runs sep t [] true)
      else split_runs sep t (c :: cur) false
  end.

Definition split_on (sep : code_unit -> bool) (s : jsstring) : list jsstring :=
  split_runs sep s [] false.

Definition is_newline (c : code_unit) : bool := (c =? 10)%N.

(** [\w] of a regular expression without the [u] flag: [A-Za-z0-9_]. *)
Definition is_word_char (c : code_unit) : bool :=
  ((48 <=? c) && (c <=? 57) || (65 <=? c) && (c <=? 90)
   || (c =? 95) || (97 <=? c) && (c <=? 122))%N.

Definition is_nonword (c : code_unit) : bool := negb (is_word_char c).

(** Number::toString for a non-negative integer below 10^21: its decimal digits. *)
Definition number_to_string (n : N) : jsstring :=
  js (NilEmpty.string_of_uint (N.to_uint n)).

(** ** The chunker of [POST /api/upload] *)

(** The object literal [{ id: ..., text: ... }] pushed by the chunker. *)
Record Chunk := { id : jsstring; text : jsstring }.

Record chunker_state := { chunks : list Chunk; chunkId : nat }.

(** [extractedText.split(/\n{1,}/).map(s => s.trim()).filter(Boolean)]. *)
Definition paragraphs (extractedText : jsstring) : list jsstring :=
  List.filter truthy (map trim (split_on is_newline extractedText)).

Section Chunker.

(** [now k] is the value of the [k]-th evaluation of [Date.now()] in the
    chunking loop.  [Date.now()] is evaluated exactly once per [chunks.push],
    just before [chunkId++], so the reading used with counter [k] is [now k]. *)
Variable now : nat -> N.

(** The template literal [`${Date.now()}_${chunkId++}`]. *)
Definition chunk_id_of (k : nat) : jsstring :=
  number_to_string (now k) ++ js "_" ++ number_to_string (N.of_nat k).

(** [chunks.push({ id: `${Date.now()}_${chunkId++}`, text: t })]. *)
Definition push (st : chunker_state) (t : jsstring) : chunker_state :=
  {| chunks := chunks st ++ [ {| id := chunk_id_of (chunkId st); text := t |} ];
     chunkId := S (chunkId st) |}.

(** [for (let i = 0; i < p.length; i += 800) chunks.push(... p.slice(i, i + 800))],
    entered at index [i]. *)
Fixpoint slice_loop (fuel : nat) (p : jsstring) (i : nat) (st : chunker_state)
  : chunker_state :=
  match fuel with
  | 0 => st
  | S fuel' =>
      if i <? length p
      then slice_loop fuel' p (i + 800) (push st (slice p i (i + 800)))
      else st
  end.

(** Body of [for (const p of paragraphs)].  The inner loop advances by 800 from
    0, so [length p] iterations are never all used (see [slice_loop_fuel]). *)
Definition chunk_paragraph (st : chunker_state) (p : jsstring) : chunker_state :=
  if length p <=? 1000 then push st p
  else slice_loop (length p) p 0 st.

Definition chunker (extractedText : jsstring) : list Chunk :=
  if truthy extractedText && (0 <? length (trim extractedText))
  then chunks (fold_left chunk_paragraph (paragraphs extractedText)
                 {| chunks := []; chunkId := 0 |})
  else [].

End Chunker.

(** ** The keyword scoring and selection of [POST /api/file-qa] *)

(** The characters of the class [[.*+?^${}()|[\]\\]]. *)
Definition regexp_special (c : code_unit) : bool :=
  ((c =? 46) || (c =? 42) || (c =? 43) || (c =? 63) || (c =? 94) || (c =? 36)
   || (c =? 123) || (c =? 125) || (c =? 40) || (c =? 41) || (c =? 124)
   || (c =? 91) || (c =? 93) || (c =? 92))%N.

(** [w.replace(/[.*+?^${}()|[\]\\]/g, '\\$&')]: a backslash before every
    special character. *)
Definition escape_regexp (w : jsstring) : jsstring :=
  flat_map (fun c => if regexp_special c then [92%N; c] else [c]) w.

(** [new RegExp(pattern, 'g')] for the patterns the handler builds: a sequence
    of ordinary characters and backslash-escaped special characters denotes the
    literal string of those characters.  Any other pattern is outside this
    fragment ([None]); [regexp_literal_escape] shows that the handler never
    builds one. *)
Fixpoint regexp_literal (pattern : jsstring) : option jsstring :=
  match pattern with
  | [] => Some []
  | c :: rest =>
      if (c =? 92)%N then
        match rest with
        | d :: rest' =>
            if regexp_special d
            then option_map (cons d) (regexp_literal rest')
            else None
        | [] => None
        end
      else if regexp_special c then None
      else option_map (cons c) (regexp_literal rest)
  end.

Fixpoint starts_with (lit txt : jsstring) : bool :=
  match lit, txt with
  | [], _ => true
  | _ :: _, [] => false
  | a :: lit', b :: txt' => code_unit_eqb a b && starts_with lit' txt'
  end.

(** [(txt.match(re) || []).length] for a global regular expression that denotes
    the literal [lit]: the matches are found from left to right, and the search
    resumes after the end of a match (one position further after an empty
    match).  [skip] counts the positions still covered by the last match. *)
Fixpoint count_matches (lit txt : jsstring) (skip : nat) : nat :=
  match txt with
  | [] => if (skip =? 0) && starts_with lit [] then 1 else 0
  | _ :: txt' =>
      match skip with
      | 0 => if starts_with lit txt
             then S (count_matches lit txt' (length lit - 1))
             else count_matches lit txt' 0
      | S skip' => count_matches lit txt' skip'
      end
  end.

(** [const re = new RegExp(w.replace(...), 'g'); (txt.match(re) || []).length]. *)
Definition found (w txt : jsstring) : nat :=
  match regexp_literal (escape_regexp w) with
  | Some lit => count_matches lit txt 0
  | None => 0
  end.

(** The element [{ chunk: c, score }] of [scores]. *)
Record Scored := { chunk : Chunk; score : nat }.

(** [Array.prototype.sort(compareFn)]: a stable sort (ECMAScript 2019), so its
    result is the one of insertion sort: an element moves behind a later one
    only when [compareFn] orders it strictly after. *)
Fixpoint sort_insert {A} (compareFn : A -> A -> Z) (x : A) (l : list A) : list A :=
  match l with
  | [] => [x]
  | y :: l' =>
      if (0 <? compareFn x y)%Z then y :: sort_insert compareFn x l'
      else x :: l
  end.

Fixpoint sort {A} (compareFn : A -> A -> Z) (l : list A) : list A :=
  match l with
  | [] => []
  | x :: l' => sort_insert compareFn x (sort compareFn l')
  end.

(** [(a, b) => b.score - a.score]. *)
Definition by_score_desc (a b : Scored) : Z := (Z.of_nat (score b) - Z.of_nat (score a))%Z.

Definition nl : jsstring := [10%N].
Definition dquote : jsstring := [34%N].

(** [list.join(sep)]. *)
Fixpoint join (sep : jsstring) (l : list jsstring) : jsstring :=
  match l with
  | [] => []
  | [s] => s
  | s :: l' => s ++ sep ++ join sep l'
  end.

(** [list.map((c, i) => f(c, i))], entered at index [i]. *)
Fixpoint mapi {A B} (f : A -> nat -> B) (i : nat) (l : list A) : list B :=
  match l with
  | [] => []
  | x :: l' => f x i :: mapi f (S i) l'
  end.

Section Retriever.

(** [String.prototype.toLowerCase]. *)
Variable toLowerCase : jsstring -> jsstring.

(** [question.toLowerCase().split(/\W+/).filter(Boolean)]. *)
Definition words (question : jsstring) : list jsstring :=
  List.filter truthy (split_on is_nonword (toLowerCase question)).

(** The callback of [chunks.map]: the loop [for (const w of words)] over the
    lower-cased text.  [c.text || ""] is [c.text] for every string. *)
Definition chunk_score (ws : list jsstring) (c : Chunk) : nat :=
  let txt := toLowerCase (text c) in
  fold_left (fun score w => if length w <? 3 then score else score + found w txt) ws 0.

Definition scores (cs : list Chunk) (question : jsstring) : list Scored :=
  map (fun c => {| chunk := c; score := chunk_score (words question) c |}) cs.

(** Lines 467-469: sort by descending score, keep at most six chunks of positive
    score, and fall back to the first four chunks when none was kept. *)
Definition selected (cs : list Chunk) (question : jsstring) : list Chunk :=
  let sorted := sort by_score_desc (scores cs question) in
  let sel := map chunk (firstn 6 (List.filter (fun s => 0 <? score s) sorted)) in
  if length sel =? 0 then sel ++ firstn 4 cs else sel.

(** [selected.map((c,i) => `Context ${i+1}:\n${c.text}`).join("\n\n---\n\n")]. *)
Definition contextText (sel : list Chunk) : jsstring :=
  join (nl ++ nl ++ js "---" ++ nl ++ nl)
    (mapi (fun c i => js "Context " ++ number_to_string (N.of_nat (i + 1))
                        ++ js ":" ++ nl ++ text c) 0 sel).

End Retriever.

(** [toLowerCase] on strings of Basic Latin characters, where it maps [A-Z] to
    [a-z] and nothing else; used to run the handlers on concrete ASCII inputs. *)
Definition toLowerCase_ascii (s : jsstring) : jsstring :=
  map (fun c => if ((65 <=? c) && (c <=? 90))%N then (c + 32)%N else c) s.

(** ** JSON values and the metadata record *)

#[local] Unset Elimination Schemes.
Inductive json :=
| JNull
| JBool (b : bool)
| JNum (n : Z)
| JStr (s : jsstring)
| JArr (items : list json)
| JObj (fields : list (jsstring * json)).
#[local] Set Elimination Schemes.

Fixpoint assoc (k : jsstring) (fields : list (jsstring * json)) : option json :=
  match fields with
  | [] => None
  | (k', v) :: rest => if jsstring_eqb k k' then Some v else assoc k rest
  end.

(** Property access [v.k]; [None] is [undefined]. *)
Definition get (k : string) (v : json) : option json :=
  match v with
  | JObj fields => assoc (js k) fields
  | _ => None
  end.

(** The value of [req.file] that multer provides. *)
Module File.
Record t := { originalname : jsstring; filename : jsstring; path : jsstring;
              size : N; mimetype : jsstring }.
End File.

(** The object [meta] of [POST /api/upload]. *)
Module Meta.
Record t := { id : jsstring; originalName : jsstring; filename : jsstring;
              path : jsstring; size : N; mimeType : jsstring;
              uploadedAt : jsstring; chunks : list Chunk }.
End Meta.

Definition chunk_json (c : Chunk) : json :=
  JObj [(js "id", JStr (id c)); (js "text", JStr (text c))].

Definition meta_json (m : Meta.t) : json :=
  JObj [(js "id", JStr (Meta.id m));
        (js "originalName", JStr (Meta.originalName m));
        (js "filename", JStr (Meta.filename m));
        (js "path", JStr (Meta.path m));
        (js "size", JNum (Z.of_N (Meta.size m)));
        (js "mimeType", JStr (Meta.mimeType m));
        (js "uploadedAt", JStr (Meta.uploadedAt m));
        (js "chunks", JArr (map chunk_json (Meta.chunks m)))].

(** What the query handlers read of an element of [meta.chunks]: its [id] and
    its [text].  Elements that are not objects with these two string properties
    are outside the model ([None]); the upload handler writes no such element. *)
Definition as_chunk (v : json) : option Chunk :=
  match get "id" v, get "text" v with
  | Some (JStr i), Some (JStr t) => Some {| id := i; text := t |}
  | _, _ => None
  end.

Fixpoint as_chunks (items : list json) : option (list Chunk) :=
  match items with
  | [] => Some []
  | v :: rest =>
      match as_chunk v, as_chunks rest with
      | Some c, Some cs => Some (c :: cs)
      | _, _ => None
      end
  end.

(** [meta.chunks || []]: a missing or falsy property gives the empty array.
    Reading a property of [null] throws, and a truthy value that is not an
    array of chunks is used as if it were one; both are outside the model. *)
Definition chunks_or_empty (meta : json) : option (list Chunk) :=
  match meta with
  | JNull => None
  | _ =>
      match get "chunks" meta with
      | None | Some JNull | Some (JBool false) | Some (JNum 0%Z) | Some (JStr []) => Some []
      | Some (JArr items) => as_chunks items
      | Some _ => None
      end
  end.

(** ** The uploads directory *)

(** The files of the uploads directory: path to content.  The handlers are
    written in a state monad over it. *)
Definition IO (A : Type) : Type := gmap jsstring jsstring -> A * gmap jsstring jsstring.

Definition ret {A} (a : A) : IO A := fun fs => (a, fs).

Definition bind {A B} (m : IO A) (k : A -> IO B) : IO B :=
  fun fs => let (a, fs') := m fs in k a fs'.

Notation "'let*' x ':=' m 'in' k" := (bind m (fun x => k))
  (at level 10, x pattern, m at level 200, k at level 200).

(** [fs.existsSync(p)]. *)
Definition existsSync (p : jsstring) : IO bool :=
  fun fs => (match fs !! p with Some _ => true | None => false end, fs).

(** [fs.readFileSync(p, 'utf8')]; [None] when the file does not exist. *)
Definition readFileSync (p : jsstring) : IO (option jsstring) :=
  fun fs => (fs !! p, fs).

(** [fs.writeFileSync(p, data, 'utf8')]: creates or replaces the whole file. *)
Definition writeFileSync (p data : jsstring) : IO unit :=
  fun fs => (tt, <[p := data]> fs).

(** ** The request handlers *)

(** The result of a handler: [res.status(s).json(body)], or [Unmodelled] when the
    stored metadata is not of the shape the model covers (see [as_chunk]). *)
Inductive outcome :=
| Respond (status : nat) (body : json)
| Unmodelled.

Definition error_response (status : nat) (msg : jsstring) : outcome :=
  Respond status (JObj [(js "ok", JBool false); (js "error", JStr msg)]).

(** The option objects the three handlers pass to [getChatResponse]. *)
Inductive chat_opts :=
| opts_upload      (* { system: "You are a helpful study assistant analyzing a document." } *)
| opts_file_qa     (* { system: "You are a helpful study assistant.", max_tokens: 900 } *)
| opts_file_quiz.  (* { system: 'File quiz generator', max_tokens: 1200, temperature: 0.3 } *)

(** The result of looking a record up (lines 447-450 and 730-732). *)
Inductive loaded :=
| NotFound
| ParseError (e : jsstring)
| Found (meta : json).

(** Truthiness of a parsed JSON value ([null] stands for a [null] result). *)
Definition truthy_json (v : json) : bool :=
  match v with
  | JNull | JBool false | JNum 0%Z | JStr [] => false
  | _ => true
  end.

Section Handlers.

Variable UPLOAD_DIR : jsstring.
(** [path.join]. *)
Variable path_join : jsstring -> jsstring -> jsstring.
(** [JSON.stringify(v, null, 2)]. *)
Variable JSON_stringify : json -> jsstring.
(** [JSON.parse]; [inr e] when it throws, [e] being [String(err)]. *)
Variable JSON_parse : jsstring -> json + jsstring.
Variable toLowerCase : jsstring -> jsstring.
(** [groqClient] together with [await getChatResponse(prompt, opts)]:
    [None] when the client is not configured; otherwise the call gives
    [{text, raw}] or throws ([inr e], [e] being [String(err)]). *)
Variable groqClient : option (jsstring -> chat_opts -> (jsstring * json) + jsstring).
(** [extractAndParseJson]; [JNull] when it returns [null]. *)
Variable extractAndParseJson : jsstring -> json.

(** [path.join(UPLOAD_DIR, `${name}.meta.json`)]. *)
Definition metaPath (name : jsstring) : jsstring :=
  path_join UPLOAD_DIR (name ++ js ".meta.json").

(** Lines 401-414 of the upload handler: the record is serialized as a whole
    and written to its sidecar file. *)
Definition save (meta : Meta.t) : IO unit :=
  writeFileSync (metaPath (Meta.filename meta)) (JSON_stringify (meta_json meta)).

Definition load (fileFilename : jsstring) : IO loaded :=
  let* exists_ := existsSync (metaPath fileFilename) in
  if negb exists_ then ret NotFound
  else
    let* content := readFileSync (metaPath fileFilename) in
    match content with
    | None => ret NotFound
    | Some data =>
        match JSON_parse data with
        | inl meta => ret (Found meta)
        | inr e => ret (ParseError e)
        end
    end.

(** The sidecar files written by a series of uploads, one [save] after the
    other in the order of the list. *)
Fixpoint save_all (metas : list Meta.t) : IO unit :=
  match metas with
  | [] => ret tt
  | meta :: rest => let* _ := save meta in save_all rest
  end.

(** [POST /api/upload], from the chunking on (lines 385-430).  [file] is
    [req.file]; [extractedText] is what the extraction step (file read, PDF
    parser or OCR) produced; [now] gives the readings of [Date.now()] in the
    chunking loop; [record_id] is the value of
    [`${Date.now()}-${Math.random().toString(36).slice(2,8)}`] and [iso_now]
    the one of [new Date().toISOString()]. *)
Definition upload_meta (f : File.t) (extractedText : jsstring) (now : nat -> N)
    (record_id iso_now : jsstring) : Meta.t :=
  {| Meta.id := record_id;
     Meta.originalName := File.originalname f;
     Meta.filename := File.filename f;
     Meta.path := File.path f;
     Meta.size := File.size f;
     Meta.mimeType := File.mimetype f;
     Meta.uploadedAt := iso_now;
     Meta.chunks := chunker now extractedText |}.

Definition upload (file : option File.t) (extractedText : jsstring) (now : nat -> N)
    (record_id iso_now : jsstring) : IO outcome :=
  match file with
  | None => ret (error_response 400 (js "No file uploaded (field 'file')"))
  | Some f =>
      let meta := upload_meta f extractedText now record_id iso_now in
      let* _ := save meta in
      let aiResponse :=
        if truthy extractedText && (0 <? length (trim extractedText)) then
          match groqClient with
          | Some chat =>
              let prompt :=
                js "The following text was extracted from an uploaded file. Please analyze it and provide a helpful response:"
                ++ nl ++ nl ++ js "---" ++ nl ++ nl ++ extractedText in
              match chat prompt opts_upload with
              | inl (text, _) => JStr text
              | inr _ => JNull
              end
          | None => JNull
          end
        else JNull in
      ret (Respond 200 (JObj [(js "ok", JBool true); (js "meta", meta_json meta);
                              (js "aiResponse", aiResponse)]))
  end.

(** The prompt of [POST /api/file-qa] (line 472). *)
Definition file_qa_prompt (sel : list Chunk) (question : jsstring) : jsstring :=
  js "You are a helpful study assistant. Use the following extracted content from a user's uploaded file to answer the question. If the answer cannot be found in the context, say "
  ++ dquote ++ js "I cannot find the answer in the provided document." ++ dquote
  ++ js " Keep answers concise unless asked to explain." ++ nl ++ nl
  ++ contextText sel ++ nl ++ nl ++ js "Question: " ++ question ++ nl ++ nl
  ++ js "Answer:".

(** [selected.map(s => ({ id: s.id, preview: s.text.slice(0,200) }))]. *)
Definition usedChunks (sel : list Chunk) : json :=
  JArr (map (fun s => JObj [(js "id", JStr (id s));
                            (js "preview", JStr (slice (text s) 0 200))]) sel).

(** [POST /api/file-qa] (lines 442-481); the arguments are the two properties
    of [req.body], [None] when absent. *)
Definition file_qa (fileFilename question : option jsstring) : IO outcome :=
  match fileFilename, question with
  | Some f, Some q =>
      if truthy f && truthy q then
        let* r := load f in
        match r with
        | NotFound => ret (error_response 404 (js "File metadata not found"))
        | ParseError e => ret (error_response 500 e)
        | Found meta =>
            match chunks_or_empty meta with
            | None => ret Unmodelled
            | Some cs =>
                let sel := selected toLowerCase cs q in
                let prompt := file_qa_prompt sel q in
                match groqClient with
                | None => ret (error_response 500 (js "Groq client not configured"))
                | Some chat =>
                    match chat prompt opts_file_qa with
                    | inr e => ret (error_response 500 e)
                    | inl (text, raw) =>
                        ret (Respond 200 (JObj [(js "ok", JBool true);
                                                (js "text", JStr text);
                                                (js "raw", raw);
                                                (js "usedChunks", usedChunks sel)]))
                    end
                end
            end
        end
      else ret (error_response 400 (js "Missing fileFilename or question"))
  | _, _ => ret (error_response 400 (js "Missing fileFilename or question"))
  end.

(** The prompt of [POST /api/file-quiz] (lines 738-739). *)
Definition file_quiz_prompt (cs : list Chunk) : jsstring :=
  js "Create a quiz from the following extracted content. Output JSON with keys: mcq: [{question, options:[A,B,C,D], answer}], tf: [{q, answer}], short: [{q, answer}]. Use source snippets as context where relevant."
  ++ nl ++ nl
  ++ join (nl ++ nl)
       (mapi (fun c i => js "Context " ++ number_to_string (N.of_nat (i + 1))
                           ++ js ": " ++ text c) 0 (firstn 6 cs)).

(** [POST /api/file-quiz] (lines 726-752). *)
Definition file_quiz (fileFilename : option jsstring) : IO outcome :=
  match fileFilename with
  | Some f =>
      if truthy f then
        let* r := load f in
        match r with
        | NotFound => ret (error_response 404 (js "File metadata not found"))
        | ParseError e => ret (error_response 500 e)
        | Found meta =>
            match chunks_or_empty meta with
            | None => ret Unmodelled
            | Some cs =>
                if length cs =? 0
                then ret (error_response 400 (js "No extracted text available"))
                else
                  match groqClient with
                  | None => ret (error_response 500 (js "AI provider not configured"))
                  | Some chat =>
                      match chat (file_quiz_prompt cs) opts_file_quiz with
                      | inr e => ret (error_response 500 e)
                      | inl (text, raw) =>
                          let parsed := extractAndParseJson text in
                          if truthy_json parsed
                          then ret (Respond 200 (JObj [(js "ok", JBool true);
                                                       (js "quiz", parsed);
                                                       (js "raw", raw)]))
                          else ret (Respond 500
                                      (JObj [(js "ok", JBool false);
                                             (js "error", JStr (js "Failed to parse JSON from AI response"));
                                             (js "aillm_response", JStr text)]))
                      end
                  end
            end
        end
      else ret (error_response 400 (js "Missing fileFilename"))
  | None => ret (error_response 400 (js "Missing fileFilename"))
  end.

End Handlers.

(** ** A JSON printer and parser for the concrete examples

    [JSON.stringify] and [JSON.parse] are parameters of the handlers.  To run
    the handlers on concrete records they are instantiated with this compact
    printer and this parser (strings are escaped at the quote, the backslash
    and the line feed, which is all the examples contain). *)

Definition print_char (c : code_unit) : jsstring :=
  if (c =? 34)%N then [92%N; 34%N]
  else if (c =? 92)%N then [92%N; 92%N]
  else if (c =? 10)%N then [92%N; 110%N]
  else [c].

Definition print_string (s : jsstring) : jsstring :=
  dquote ++ flat_map print_char s ++ dquote.

Fixpoint sample_print (v : json) : jsstring :=
  match v with
  | JNull => js "null"
  | JBool true => js "true"
  | JBool false => js "false"
  | JNum n => (if (n <? 0)%Z then js "-" else []) ++ number_to_string (Z.abs_N n)
  | JStr s => print_string s
  | JArr items =>
      js "[" ++ (fix go (l : list json) : jsstring :=
                   match l with
                   | [] => []
                   | [x] => sample_print x
                   | x :: rest => sample_print x ++ js "," ++ go rest
                   end) items ++ js "]"
  | JObj fields =>
      js "{" ++ (fix go (l : list (jsstring * json)) : jsstring :=
                   match l with
                   | [] => []
                   | [(k, x)] => print_string k ++ js ":" ++ sample_print x
                   | (k, x) :: rest => print_string k ++ js ":" ++ sample_print x ++ js "," ++ go rest
                   end) fields ++ js "}"
  end.

(** Reads a string body up to its closing quote; [acc] is what was read, reversed. *)
Fixpoint read_string (s acc : jsstring) : option (jsstring * jsstring) :=
  match s with
  | [] => None
  | c :: rest =>
      if (c =? 34)%N then Some (rev acc, rest)
      else if (c =? 92)%N then
        match rest with
        | d :: rest' =>
            if (d =? 110)%N then read_string rest' (10%N :: acc)
            else read_string rest' (d :: acc)
        | [] => None
        end
      else read_string rest (c :: acc)
  end.

Definition is_digit (c : code_unit) : bool := ((48 <=? c) && (c <=? 57))%N.

Fixpoint read_digits (s : jsstring) (acc : N) : N * jsstring :=
  match s with
  | c :: rest => if is_digit c then read_digits rest (10 * acc + (c - 48))%N else (acc, s)
  | [] => (acc, [])
  end.

Fixpoint read_value (fuel : nat) (s : jsstring) : option (json * jsstring) :=
  match fuel with
  | 0 => None
  | S fuel' =>
      match s with
      | 110%N :: 117%N :: 108%N :: 108%N :: rest => Some (JNull, rest)
      | 116%N :: 114%N :: 117%N :: 101%N :: rest => Some (JBool true, rest)
      | 102%N :: 97%N :: 108%N :: 115%N :: 101%N :: rest => Some (JBool false, rest)
      | 34%N :: rest =>
          match read_string rest [] with
          | Some (str, rest') => Some (JStr str, rest')
          | None => None
          end
      | 91%N :: 93%N :: rest => Some (JArr [], rest)
      | 91%N :: rest =>
          match read_items fuel' rest with
          | Some (items, rest') => Some (JArr items, rest')
          | None => None
          end
      | 123%N :: 125%N :: rest => Some (JObj [], rest)
      | 123%N :: rest =>
          match read_fields fuel' rest with
          | Some (fields, rest') => Some (JObj fields, rest')
          | None => None
          end
      | 45%N :: rest =>
          let (n, rest') := read_digits rest 0%N in Some (JNum (- Z.of_N n), rest')
      | c :: _ =>
          if is_digit c
          then let (n, rest') := read_digits s 0%N in Some (JNum (Z.of_N n), rest')
          else None
      | [] => None
      end
  end
with read_items (fuel : nat) (s : jsstring) : option (list json * jsstring) :=
  match fuel with
  | 0 => None
  | S fuel' =>
      match read_value fuel' s with
      | Some (v, 44%N :: rest) =>
          match read_items fuel' rest with
          | Some (vs, rest') => Some (v :: vs, rest')
          | None => None
          end
      | Some (v, 93%N :: rest) => Some ([v], rest)
      | _ => None
      end
  end
with read_fields (fuel : nat) (s : jsstring) : option (list (jsstring * json) * jsstring) :=
  match fuel with
  | 0 => None
  | S fuel' =>
      match s with
      | 34%N :: rest =>
          match read_string rest [] with
          | Some (k, 58%N :: rest') =>
              match read_value fuel' rest' with
              | Some (v, 44%N :: rest'') =>
                  match read_fields fuel' rest'' with
                  | Some (fs, rest3) => Some ((k, v) :: fs, rest3)
                  | None => None
                  end
              | Some (v, 125%N :: rest'') => Some ([(k, v)], rest'')
              | _ => None
              end
          | _ => None
          end
      | _ => None
      end
  end.

Definition sample_parse (s : jsstring) : json + jsstring :=
  match read_value (length s) s with
  | Some (v, []) => inl v
  | _ => inr (js "SyntaxError: Unexpected token in JSON")
  end.

Definition empty_dir : gmap jsstring jsstring := empty.

Definition sample_path_join (dir name : jsstring) : jsstring := dir ++ js "/" ++ name.

(** A text upload and an upload from which no text was extracted. *)
Definition sample_meta : Meta.t :=
  upload_meta
    {| File.originalname := js "notes.txt"; File.filename := js "1700000000000-notes.txt";
       File.path := js "uploads/1700000000000-notes.txt"; File.size := 15%N;
       File.mimetype := js "text/plain" |}
    (js "short paragraph") (fun _ => 1700000000000%N)
    (js "1700000000000-k3x9ab") (js "2023-11-14T22:13:20.000Z").

Definition sample_meta_empty : Meta.t :=
  upload_meta
    {| File.originalname := js "scan.bin"; File.filename := js "1700000000001-scan.bin";
       File.path := js "uploads/1700000000001-scan.bin"; File.size := 2048%N;
       File.mimetype := js "application/octet-stream" |}
    [] (fun _ => 1700000000001%N)
    (js "1700000000001-p0q7zz") (js "2023-11-14T22:13:20.001Z").

(** A language-model client that answers every prompt with the same sentence. *)
Definition sample_client (prompt : jsstring) (opts : chat_opts) : (jsstring * json) + jsstring :=
  inl (js "I cannot find the answer in the provided document.", JNull).

(** ** Descriptions used in the statements *)

Definition all_whitespace (s : jsstring) : Prop :=
  Forall (fun c => is_js_whitespace c = true) s.

(** Consecutive pieces of [w] code units of [s] (the last one may be shorter). *)
Fixpoint strides (w fuel : nat) (s : jsstring) : list jsstring :=
  match fuel with
  | 0 => []
  | S fuel' =>
      match s with
      | [] => []
      | _ :: _ => firstn w s :: strides w fuel' (skipn w s)
      end
  end.

(** The texts one paragraph contributes to [chunks]. *)
Definition pieces (p : jsstring) : list jsstring :=
  if length p <=? 1000 then [p] else strides 800 (length p) p.

(** The chunks pushed for the texts [ts] when the counter stands at [k]. *)
Definition numbered (now : nat -> N) (k : nat) (ts : list jsstring) : list Chunk :=
  mapi (fun t j => {| id := chunk_id_of now j; text := t |}) k ts.

(** Adjacent texts share [n] code units: the last [n] of one are the first [n]
    of the next. *)
Definition adjacent_overlap (n : nat) (ts : list jsstring) : Prop :=
  forall k a b, nth_error ts k = Some a -> nth_error ts (S k) = Some b ->
                skipn (length a - n) a = firstn n b.

(** Every chunk carries a property [ordinal] that holds its position. *)
Definition has_ordinals (cs : list Chunk) : Prop :=
  forall k c, nth_error cs k = Some c ->
              get "ordinal" (chunk_json c) = Some (JNum (Z.of_nat k)).

(** Position [i] ranks before position [j]: a higher score first, and the lower
    position first among equal scores. *)
Definition ranks_before (sc : nat -> nat) (i j : nat) : Prop :=
  sc j < sc i \/ (sc i = sc j /\ i < j).

(** The score of the chunk at position [i] of [cs]. *)
Definition score_at (toLowerCase : jsstring -> jsstring) (cs : list Chunk)
    (question : jsstring) (i : nat) : nat :=
  match nth_error cs i with
  | Some c => chunk_score toLowerCase (words toLowerCase question) c
  | None => 0
  end.

(** The elements of [scores], each with its position in [chunks] (from [k] on). *)
Definition indexed_scores (toLowerCase : jsstring -> jsstring) (cs : list Chunk)
    (question : jsstring) (k : nat) : list (nat * Scored) :=
  mapi (fun c i => (i, {| chunk := c;
                          score := chunk_score toLowerCase (words toLowerCase question) c |}))
       k cs.

(** The tokenizer and the score as the specification words them: the question
    is split at every run of characters that are not letters or digits. *)
Definition is_alphanumeric (c : code_unit) : bool :=
  ((48 <=? c) && (c <=? 57) || (65 <=? c) && (c <=? 90) || (97 <=? c) && (c <=? 122))%N.

Definition spec_words (toLowerCase : jsstring -> jsstring) (question : jsstring)
  : list jsstring :=
  List.filter truthy (split_on (fun c => negb (is_alphanumeric c)) (toLowerCase question)).

Definition spec_score (toLowerCase : jsstring -> jsstring) (question : jsstring)
    (c : Chunk) : nat :=
  list_sum (map (fun w => count_matches w (toLowerCase (text c)) 0)
              (List.filter (fun w => 3 <=? length w) (spec_words toLowerCase question))).

(** A clock that stands still during a request, and a paragraph of 1001 letters
    [abc...zabc...]. *)
Definition now0 (k : nat) : N := 1700000000000%N.

Definition letters (n : nat) : jsstring :=
  map (fun i => (97 + N.of_nat (i mod 26))%N) (seq 0 n).

(** A document of two chunks. *)
Definition sample_chunks : list Chunk :=
  [ {| id := js "1700000000000_0"; text := js "Alpha particles are helium nuclei." |};
    {| id := js "1700000000000_1"; text := js "Photosynthesis occurs in chloroplasts." |} ].

(** The positions [idx] are a ranked selection for the scores [sc] of a
    document of [n] chunks: they are listed in rank order (descending score,
    the lower position first among equal scores) and are at most six; either
    all of them have a positive score and every position with a positive score
    that is left out ranks behind six listed ones, or no position has a
    positive score and they are the first four positions of the document. *)
Definition ranked_selection (sc : nat -> nat) (n : nat) (idx : list nat) : Prop :=
  StronglySorted (ranks_before sc) idx
  /\ length idx <= 6
  /\ ((idx <> [] /\ Forall (fun i => 0 < sc i) idx)
      \/ ((forall i, sc i = 0) /\ idx = seq 0 (min 4 n)))
  /\ forall j, 0 < sc j -> ~ In j idx ->
       length idx = 6 /\ Forall (fun i => ranks_before sc i j) idx.

(** A document of four chunks, two of which score the same for a question
    about cats. *)
Definition tie_chunks : list Chunk :=
  [ {| id := js "1700000000000_0"; text := js "cat" |};
    {| id := js "1700000000000_1"; text := js "cat cat" |};
    {| id := js "1700000000000_2"; text := js "a Cat" |};
    {| id := js "1700000000000_3"; text := js "dog" |} ].

(** The eight properties of a record, and a parsed value that has them all. *)
Definition record_keys : list string :=
  ["id"; "originalName"; "filename"; "path"; "size"; "mimeType"; "uploadedAt";
   "chunks"]%string.

Definition populated (v : json) : Prop :=
  Forall (fun k => get k v <> None) record_keys.

(** An uploads directory that holds one file at a sidecar path which no upload
    handler wrote: the object with the single property [id]. *)
Definition partial_record : json := JObj [(js "id", JStr (js "x"))].

Definition partial_dir : gmap jsstring jsstring :=
  <[sample_path_join (js "uploads") (js "1700000000000-x.meta.json")
    := sample_print partial_record]> empty_dir.

(** The string is empty or its first code unit is not whitespace. *)
Definition starts_clean (s : jsstring) : Prop :=
  match s with
  | [] => True
  | c :: _ => is_js_whitespace c = false
  end.

(** The file of a text upload. *)
Definition sample_notes : File.t :=
  {| File.originalname := js "notes.txt"; File.filename := js "1700000000000-notes.txt";
     File.path := js "uploads/1700000000000-notes.txt"; File.size := 15%N;
     File.mimetype := js "text/plain" |}.

(** The file of an upload from which no text is extracted. *)
Definition sample_scan : File.t :=
  {| File.originalname := js "scan.bin"; File.filename := js "1700000000001-scan.bin";
     File.path := js "uploads/1700000000001-scan.bin"; File.size := 2048%N;
     File.mimetype := js "application/octet-stream" |}.

(** ** [extractAndParseJson] (lines 121-175) *)

(** [s.indexOf(pat)], searched from position [i] on; [None] stands for [-1]. *)
Fixpoint indexOf_from (pat s : jsstring) (i : nat) : option nat :=
  if starts_with pat s then Some i
  else match s with
       | [] => None
       | _ :: t => indexOf_from pat t (S i)
       end.

Definition indexOf (pat s : jsstring) : option nat := indexOf_from pat s 0.

(** [s.lastIndexOf(c)] for a one-character string [c]; [last] is the last
    position found before [i]. *)
Fixpoint lastIndexOf_from (c : code_unit) (s : jsstring) (i : nat) (last : option nat)
  : option nat :=
  match s with
  | [] => last
  | d :: t => lastIndexOf_from c t (S i) (if code_unit_eqb d c then Some i else last)
  end.

Definition lastIndexOf (c : code_unit) (s : jsstring) : option nat :=
  lastIndexOf_from c s 0 None.

(** [\s*```] matched at the head of [s]: some run of whitespace, then the fence. *)
Fixpoint ws_then_fence (s : jsstring) : bool :=
  starts_with (js "```") s
  || match s with
     | c :: t => is_js_whitespace c && ws_then_fence t
     | [] => false
     end.

(** [([\s\S]*?)\s*```] matched at the head of [s]: the lazy group takes the
    fewest code units after which the rest of the pattern matches.  [acc] is
    the capture so far, reversed. *)
Fixpoint lazy_capture (s acc : jsstring) : option jsstring :=
  if ws_then_fence s then Some (rev acc)
  else match s with
       | [] => None
       | c :: t => lazy_capture t (c :: acc)
       end.

(** [\s*([\s\S]*?)\s*```] matched at the head of [s]: the greedy [\s*] takes
    the longest run of whitespace first and gives code units back only when
    the rest fails. *)
Fixpoint after_json (s : jsstring) : option jsstring :=
  match s with
  | c :: t =>
      if is_js_whitespace c
      then match after_json t with
           | Some cap => Some cap
           | None => lazy_capture s []
           end
      else lazy_capture s []
  | [] => lazy_capture [] []
  end.

Definition match_here (s : jsstring) : option jsstring :=
  if starts_with (js "```json") s then after_json (skipn 7 s) else None.

(** [text.match(/```json\s*([\s\S]*?)\s*```/)]: the capture group of the
    leftmost match, [None] when there is no match. *)
Fixpoint codeBlockMatch (s : jsstring) : option jsstring :=
  match match_here s with
  | Some cap => Some cap
  | None =>
      match s with
      | [] => None
      | _ :: t => codeBlockMatch t
      end
  end.

(** The start of the candidate: the first [{] or [[], whichever comes first. *)
Definition first_bracket (text : jsstring) : option nat :=
  match indexOf (js "{") text, indexOf (js "[") text with
  | None, None => None
  | None, Some b => Some b
  | Some a, None => Some a
  | Some a, Some b => Some (Nat.min a b)
  end.

(** [Math.max(jsonString.lastIndexOf('}'), jsonString.lastIndexOf(']'))]. *)
Definition last_bracket (jsonString : jsstring) : option nat :=
  match lastIndexOf 125%N jsonString, lastIndexOf 93%N jsonString with
  | None, None => None
  | None, Some b => Some b
  | Some a, None => Some a
  | Some a, Some b => Some (Nat.max a b)
  end.

Section ExtractJson.

Variable JSON_parse : jsstring -> json + jsstring.

(** The function returns a parsed value or [null]; [JNull] stands for [null]
    (a caller cannot tell a parsed [null] from a failure either). *)
Definition extractAndParseJson (text : jsstring) : json :=
  if negb (truthy text) then JNull
  else
    let from_block :=
      match codeBlockMatch text with
      | Some cap =>
          if truthy cap
          then match JSON_parse cap with
               | inl v => Some v
               | inr _ => None
               end
          else None
      | None => None
      end in
    match from_block with
    | Some v => v
    | None =>
        match first_bracket text with
        | None => JNull
        | Some start =>
            let jsonString := skipn start text in
            match JSON_parse jsonString with
            | inl v => v
            | inr _ =>
                match last_bracket jsonString with
                | Some e =>
                    match JSON_parse (firstn (e + 1) jsonString) with
                    | inl v => v
                    | inr _ => JNull
                    end
                | None => JNull
                end
            end
        end
    end.

End ExtractJson.

(** ** [POST /api/ai] (lines 197-254) *)

(** [s.includes(pat)]. *)
Definition includes (pat s : jsstring) : bool :=
  match indexOf pat s with
  | Some _ => true
  | None => false
  end.

(** A character of a pattern against a code unit under the flag [i]: both are
    compared after mapping to upper case, and a code unit outside Basic Latin
    never counts as a Basic Latin letter; the patterns of this handler are
    made of lower-case letters and spaces. *)
Definition ci_eqb (p c : code_unit) : bool :=
  code_unit_eqb p c
  || ((97 <=? p)%N && (p <=? 122)%N && code_unit_eqb (p - 32)%N c).

Fixpoint starts_with_ci (lit txt : jsstring) : bool :=
  match lit, txt with
  | [], _ => true
  | _ :: _, [] => false
  | a :: lit', b :: txt' => ci_eqb a b && starts_with_ci lit' txt'
  end.

(** [/lit/i.test(s)] for a literal pattern. *)
Fixpoint test_ci (lit s : jsstring) : bool :=
  starts_with_ci lit s
  || match s with
     | [] => false
     | _ :: t => test_ci lit t
     end.

(** The assertion [\b] between the code unit before a position and the one at
    it ([None] at either end of the string). *)
Definition word_boundary (prev next : option code_unit) : bool :=
  xorb (match prev with Some c => is_word_char c | None => false end)
       (match next with Some c => is_word_char c | None => false end).

Definition last_of (s : jsstring) (prev : option code_unit) : option code_unit :=
  match rev s with
  | c :: _ => Some c
  | [] => prev
  end.

(** [\blit\b] under the flag [i], matched at the head of [s], [prev] being
    the code unit before it. *)
Definition word_here (lit : jsstring) (prev : option code_unit) (s : jsstring) : bool :=
  word_boundary prev (hd_error s)
  && starts_with_ci lit s
  && word_boundary (last_of (firstn (length lit) s) prev) (hd_error (skipn (length lit) s)).

(** [/\blit\b/i.test(s)]: a match is looked for at every position. *)
Fixpoint test_word (lit : jsstring) (prev : option code_unit) (s : jsstring) : bool :=
  word_here lit prev s
  || match s with
     | [] => false
     | c :: t => test_word lit (Some c) t
     end.

(** [/\\\$\\\$|\\\$\s*\\\$/] matched at the head of [s]: backslash,
    dollar, backslash, dollar, with or without whitespace between the two pairs. *)
Definition dollars_here (s : jsstring) : bool :=
  starts_with [92%N; 36%N; 92%N; 36%N] s
  || match s with
     | 92%N :: 36%N :: t => starts_with [92%N; 36%N] (trimStart t)
     | _ => false
     end.

Fixpoint test_dollars (s : jsstring) : bool :=
  dollars_here s
  || match s with
     | [] => false
     | _ :: t => test_dollars t
     end.

(** [/latex|\\\$\\\$|\\\$\s*\\\$/.test(prompt)]. *)
Definition latex_regex (prompt : jsstring) : bool :=
  includes (js "latex") prompt || test_dollars prompt.

(** [/detailed|explain in detail|long answer|very big|one and half page|one and a half page/i.test(prompt)]. *)
Definition detailed_regex (prompt : jsstring) : bool :=
  test_ci (js "detailed") prompt || test_ci (js "explain in detail") prompt
  || test_ci (js "long answer") prompt || test_ci (js "very big") prompt
  || test_ci (js "one and half page") prompt || test_ci (js "one and a half page") prompt.

(** [/one and half page|one and a half page/i.test(prompt)]. *)
Definition page_regex (prompt : jsstring) : bool :=
  test_ci (js "one and half page") prompt || test_ci (js "one and a half page") prompt.

(** [/\bchoose\b|\boption\b|\b(a|b|c|d)\b/i.test(lower)]. *)
Definition choice_regex (lower : jsstring) : bool :=
  test_word (js "choose") None lower || test_word (js "option") None lower
  || test_word (js "a") None lower || test_word (js "b") None lower
  || test_word (js "c") None lower || test_word (js "d") None lower.

(** Truthiness of a property that may be absent. *)
Definition truthy_opt (v : option json) : bool :=
  match v with
  | Some x => truthy_json x
  | None => false
  end.

(** The options [{ model, max_tokens: tokens, temperature }] of the call. *)
Record ai_opts := { opt_model : option json; opt_max_tokens : json;
                    opt_temperature : option json }.

Section Ai.

Variable toLowerCase : jsstring -> jsstring.
(** [groqClient] with [await getChatResponse(wrapperPrompt, opts)]; [inr e] when
    the call throws, [e] being [err.message]. *)
Variable groqClient : option (jsstring -> ai_opts -> (jsstring * json) + jsstring).

Definition isMCQ (lower : jsstring) : bool :=
  includes (js "mcq") lower || includes (js "multiple choice") lower || choice_regex lower.

Definition isOneMark (lower : jsstring) : bool :=
  includes (js "one mark") lower || includes (js "one-mark") lower
  || (includes (js "answer only") lower || includes (js "final answer only") lower).

(** [useDetailed]: the flag when it is a boolean, the phrase test otherwise. *)
Definition useDetailed (detailed : option json) (prompt : jsstring) : bool :=
  match detailed with
  | Some (JBool b) => b
  | _ => detailed_regex prompt
  end.

Definition wrap_short : jsstring :=
  js "Provide only the final short answer (single line) with no explanation. Question: ".
Definition wrap_detailed : jsstring :=
  js "You are a professional tutor. Provide a detailed, step-by-step answer with clear explanations, relevant examples, and where appropriate, mathematical derivations. Use LaTeX for equations if requested. Answer the user's prompt exactly:" ++ nl ++ nl.
Definition wrap_default : jsstring :=
  js "You are a professional patient tutor. Provide a clear, structured answer with headings, short paragraphs, bullets where useful, and one worked example if applicable. Use LaTeX for math only if the user requests it. Make the answer engaging by using emojis and bolding important words. Answer the user's prompt exactly:" ++ nl ++ nl.
Definition wrap_latex : jsstring :=
  js "You are a professional tutor. Provide answers using LaTeX for all mathematical expressions. Use display math with $$...$$ for important equations and inline $...$ where appropriate. Output raw LaTeX (do not HTML-escape backslashes). Answer the user's prompt in detail:" ++ nl ++ nl.
Definition wrap_steps : jsstring :=
  js "You are a step-by-step teacher. For the following prompt, provide a clear stepwise solution:" ++ nl ++ nl.
Definition wrap_beginner : jsstring :=
  js "Explain the following in beginner-friendly terms, with simple examples and no assumed advanced knowledge:" ++ nl ++ nl.
Definition wrap_intermediate : jsstring :=
  js "Explain the following with intermediate depth: include necessary formulas and one worked example:" ++ nl ++ nl.
Definition wrap_expert : jsstring :=
  js "Explain the following at an advanced level: include rigorous derivations and concise statements for an expert audience:" ++ nl ++ nl.

(** The assignments to [wrapperPrompt], in the order of the source: each later
    one overwrites the earlier ones. *)
Definition wrapperPrompt (body : json) (prompt : jsstring) : jsstring :=
  let lower := toLowerCase prompt in
  let w1 :=
    if isMCQ lower || isOneMark lower then wrap_short ++ prompt
    else if useDetailed (get "detailed" body) prompt then wrap_detailed ++ prompt
    else wrap_default ++ prompt in
  let w2 :=
    if truthy_opt (get "latex" body) || latex_regex prompt then wrap_latex ++ prompt
    else w1 in
  let w3 := if truthy_opt (get "stepByStep" body) then wrap_steps ++ prompt else w2 in
  match get "difficulty" body with
  | Some (JStr ((_ :: _) as difficulty)) =>
      let d := toLowerCase difficulty in
      if jsstring_eqb d (js "beginner") || jsstring_eqb d (js "easy")
      then wrap_beginner ++ prompt
      else if jsstring_eqb d (js "intermediate") || jsstring_eqb d (js "medium")
      then wrap_intermediate ++ prompt
      else if jsstring_eqb d (js "expert") || jsstring_eqb d (js "hard")
      then wrap_expert ++ prompt
      else w3
  | _ => w3
  end.

(** [(detailed || latex || /one and half page|.../i.test(prompt))
     ? (max_tokens || 1500) : (max_tokens || 900)]. *)
Definition tokens (body : json) (prompt : jsstring) : json :=
  let max_tokens := get "max_tokens" body in
  let fallback := if truthy_opt (get "detailed" body) || truthy_opt (get "latex" body)
                     || page_regex prompt
                  then JNum 1500 else JNum 900 in
  match max_tokens with
  | Some v => if truthy_json v then v else fallback
  | None => fallback
  end.

(** The handler; [body] is [req.body || {}]. *)
Definition api_ai (body : json) : outcome :=
  match get "prompt" body with
  | Some (JStr prompt) =>
      if truthy prompt && truthy (trim prompt) then
        match groqClient with
        | None =>
            error_response 500
              (js "No AI provider configured. Set GROQ_API_KEY in .env and install groq-sdk.")
        | Some chat =>
            match chat (wrapperPrompt body prompt)
                    {| opt_model := get "model" body;
                       opt_max_tokens := tokens body prompt;
                       opt_temperature := get "temperature" body |} with
            | inl (text, raw) =>
                Respond 200 (JObj [(js "ok", JBool true); (js "text", JStr text);
                                   (js "raw", raw)])
            | inr e => error_response 500 e
            end
        end
      else error_response 400 (js "Missing prompt in body")
  | _ => error_response 400 (js "Missing prompt in body")
  end.

End Ai.

(** ** The bracket check of [tools/check_braces.js] (lines 9 and 17-47) *)

(** [s.split(ch)] for a one-character string [ch]; [cur] is the piece being
    read, reversed. *)
Fixpoint split_char (ch : code_unit) (s cur : jsstring) : list jsstring :=
  match s with
  | [] => [rev cur]
  | d :: t =>
      if code_unit_eqb d ch then rev cur :: split_char ch t []
      else split_char ch t (d :: cur)
  end.

(** [function countChars(s,ch){return (s.split(ch).length-1);}]. *)
Definition countChars (s : jsstring) (ch : code_unit) : nat :=
  length (split_char ch s []) - 1.

(** The tables [opening] and [closing]; [None] is [undefined]. *)
Definition opening (ch : code_unit) : option code_unit :=
  if (ch =? 123)%N then Some 125%N
  else if (ch =? 40)%N then Some 41%N
  else if (ch =? 91)%N then Some 93%N
  else None.

Definition closing (ch : code_unit) : option code_unit :=
  if (ch =? 125)%N then Some 123%N
  else if (ch =? 41)%N then Some 40%N
  else if (ch =? 93)%N then Some 91%N
  else None.

(** An entry [{ch, line, col}] of [stack]. *)
Record opened := { o_ch : code_unit; o_line : nat; o_col : nat }.

(** A line written by the scan. *)
Inductive message :=
| Unmatched (ch : code_unit) (line col : nat)
| Mismatched (ch : code_unit) (line col : nat) (expected : option code_unit).

(** The body of the inner loop for the character [ch] at index [chIdx] of line
    [i].  The stack is kept with its top first. *)
Definition scan_step (i chIdx : nat) (ch : code_unit)
    (st : list opened * list message) : list opened * list message :=
  let (stack, log) := st in
  match opening ch with
  | Some _ => ({| o_ch := ch; o_line := i + 1; o_col := chIdx + 1 |} :: stack, log)
  | None =>
      match closing ch with
      | Some o =>
          match stack with
          | [] => (stack, log ++ [Unmatched ch (i + 1) (chIdx + 1)])
          | top :: rest =>
              if code_unit_eqb (o_ch top) o then (rest, log)
              else (stack, log ++ [Mismatched ch (i + 1) (chIdx + 1) (opening (o_ch top))])
          end
      | None => st
      end
  end.

Fixpoint scan_chars (i chIdx : nat) (line : jsstring) (st : list opened * list message)
  : list opened * list message :=
  match line with
  | [] => st
  | ch :: t => scan_chars i (S chIdx) t (scan_step i chIdx ch st)
  end.

Fixpoint scan_lines (i : nat) (lines : list jsstring) (st : list opened * list message)
  : list opened * list message :=
  match lines with
  | [] => st
  | line :: rest => scan_lines (S i) rest (scan_chars i 0 line st)
  end.

(** The last line written: the first ten unclosed openings, or the all-clear. *)
Inductive verdict :=
| UnclosedOpenings (first : list opened)
| AllBalanced.

(** Lines 17 and 28-47 on the text [script]: the messages of the scan and the
    final line. *)
Definition check_braces (script : jsstring) : list message * verdict :=
  let (stack, log) := scan_lines 0 (split_char 10%N script []) ([], []) in
  (log, match stack with
        | [] => AllBalanced
        | _ :: _ => UnclosedOpenings (firstn 10 (rev stack))
        end).

(** Texts whose braces, parentheses and square brackets are properly nested;
    every other character is free. *)
Inductive balanced : jsstring -> Prop :=
| balanced_nil : balanced []
| balanced_other c s :
    opening c = None -> closing c = None -> balanced s -> balanced (c :: s)
| balanced_pair o c s t :
    closing c = Some o -> balanced s -> balanced t -> balanced (o :: s ++ c :: t).

(** The scan without positions and messages: the stack of open characters
    after [s], or [None] as soon as a message would be written. *)
Fixpoint run_stack (stack : list code_unit) (s : jsstring) : option (list code_unit) :=
  match s with
  | [] => Some stack
  | ch :: t =>
      match opening ch with
      | Some _ => run_stack (ch :: stack) t
      | None =>
          match closing ch with
          | Some o =>
              match stack with
              | top :: rest => if code_unit_eqb top o then run_stack rest t else None
              | [] => None
              end
          | None => run_stack stack t
          end
      end
  end.

(** [s] closes the open characters of [stack], innermost first, with balanced
    text in between. *)
Fixpoint closes (stack : list code_unit) (s : jsstring) : Prop :=
  match stack with
  | [] => balanced s
  | o :: stack' =>
      exists b c rest, s = b ++ c :: rest /\ balanced b /\ closing c = Some o
                       /\ closes stack' rest
  end.

(** * Properties *)

(** ** Strings *)

Lemma jsstring_eqb_eq (a b : jsstring) : jsstring_eqb a b = true <-> a = b.
Proof.
  revert b; induction a as [|x a IH]; intros [|y b]; simpl; try (split; congruence).
  unfold code_unit_eqb. rewrite andb_true_iff, N.eqb_eq, IH.
  split; [intros [-> ->]; reflexivity | intros [= -> ->]; auto].
Qed.

Lemma js_inj (s t : string) : js s = js t -> s = t.
Proof.
  unfold js. intros H.
  rewrite <- (string_of_list_ascii_of_string s), <- (string_of_list_ascii_of_string t).
  f_equal. revert H. generalize (list_ascii_of_string t).
  induction (list_ascii_of_string s) as [|a l IH]; intros [|b l']; simpl; try congruence.
  intros [= Hab Hl]. f_equal; [|auto].
  rewrite <- (ascii_N_embedding a), <- (ascii_N_embedding b). congruence.
Qed.

Lemma number_to_string_inj (m n : N) : number_to_string m = number_to_string n -> m = n.
Proof.
  unfold number_to_string. intros H%js_inj.
  apply Unsigned.to_uint_inj.
  assert (Some (N.to_uint m) = Some (N.to_uint n)) as [= ->]; [|reflexivity].
  rewrite <- !NilEmpty.usu. congruence.
Qed.

Lemma number_to_string_digits (n : N) :
  Forall (fun c => c <> 95%N) (number_to_string n).
Proof.
  unfold number_to_string. generalize (N.to_uint n). intros d.
  induction d; simpl; constructor; try assumption; discriminate.
Qed.

Lemma underscore_split (a1 a2 b1 b2 : jsstring) :
  Forall (fun c => c <> 95%N) a1 -> Forall (fun c => c <> 95%N) a2 ->
  a1 ++ 95%N :: b1 = a2 ++ 95%N :: b2 -> a1 = a2 /\ b1 = b2.
Proof.
  intros H1. revert a2. induction H1 as [|x a1 Hx _ IH]; intros a2 H2 E.
  - destruct H2 as [|y a2 Hy _]; simpl in E; [injection E; auto|].
    injection E as <- _. contradiction.
  - destruct H2 as [|y a2 Hy H2]; simpl in E.
    + injection E as -> _. contradiction.
    + injection E as -> E. destruct (IH _ H2 E) as [-> ->]. auto.
Qed.

(** ** Trimming and splitting *)

Lemma trimStart_nil (s : jsstring) : trimStart s = [] <-> all_whitespace s.
Proof.
  unfold all_whitespace. induction s as [|c s IH]; simpl.
  - split; [constructor | reflexivity].
  - destruct (is_js_whitespace c) eqn:Hc.
    + rewrite IH. split; [constructor; assumption | inversion 1; assumption].
    + split; [discriminate | inversion 1; congruence].
Qed.

Lemma trimStart_whitespace (s : jsstring) : all_whitespace (trimStart s) -> all_whitespace s.
Proof.
  unfold all_whitespace. induction s as [|c s IH]; simpl; [auto|].
  destruct (is_js_whitespace c) eqn:Hc; [|auto].
  intros H. constructor; auto.
Qed.

Lemma trim_nil (s : jsstring) : trim s = [] <-> all_whitespace s.
Proof.
  unfold trim, trimEnd. split.
  - intros H. apply trimStart_whitespace.
    apply (f_equal (@rev _)) in H. rewrite rev_involutive in H. simpl in H.
    apply trimStart_nil in H. unfold all_whitespace in *.
    apply Forall_rev in H. rewrite rev_involutive in H. exact H.
  - intros H. apply trimStart_nil in H. rewrite H. reflexivity.
Qed.

Lemma split_runs_whitespace sep (s cur : jsstring) (b : bool) :
  all_whitespace s -> all_whitespace cur ->
  Forall all_whitespace (split_runs sep s cur b).
Proof.
  unfold all_whitespace. revert cur b.
  induction s as [|c s IH]; intros cur b Hs Hcur; simpl.
  - constructor; [apply Forall_rev; assumption | constructor].
  - inversion Hs; subst. destruct (sep c), b; try (apply IH; auto).
    constructor; [apply Forall_rev; assumption | apply IH; auto].
Qed.

(** When the guard of the chunker fails, there is no paragraph either. *)
Lemma paragraphs_guard (t : jsstring) :
  truthy t && (0 <? length (trim t)) = false -> paragraphs t = [].
Proof.
  intros H. assert (all_whitespace t) as Hws.
  { destruct t as [|c t]; [constructor|]. simpl in H.
    apply trim_nil. destruct (trim (c :: t)); [reflexivity | discriminate]. }
  unfold paragraphs, split_on.
  pose proof (split_runs_whitespace is_newline t [] false Hws (List.Forall_nil _)) as Hall.
  induction Hall as [|p ps Hp _ IH]; simpl; [reflexivity|].
  apply trim_nil in Hp. rewrite Hp. simpl. exact IH.
Qed.

(** ** The chunker *)

Lemma strides_fuel (w : nat) (f1 f2 : nat) (s : jsstring) :
  0 < w -> length s <= f1 -> length s <= f2 -> strides w f1 s = strides w f2 s.
Proof.
  intros Hw. revert f2 s. induction f1 as [|f1 IH]; intros f2 s H1 H2.
  - destruct s; [|simpl in H1; lia]. destruct f2; reflexivity.
  - destruct f2 as [|f2]; [destruct s; [reflexivity | simpl in H2; lia]|].
    destruct s as [|c s]; [reflexivity|]. cbn [strides]. f_equal.
    apply IH; rewrite length_skipn; simpl in *; lia.
Qed.

Lemma concat_strides (w fuel : nat) (s : jsstring) :
  0 < w -> length s <= fuel -> concat (strides w fuel s) = s.
Proof.
  intros Hw. revert s. induction fuel as [|fuel IH]; intros s H.
  - destruct s; [reflexivity | simpl in H; lia].
  - destruct s as [|c s]; [reflexivity|]. cbn [strides concat].
    rewrite IH; [apply firstn_skipn|]. rewrite length_skipn. simpl in *. lia.
Qed.

Lemma strides_nth (w fuel : nat) (s : jsstring) (k : nat) (t : jsstring) :
  nth_error (strides w fuel s) k = Some t -> t = slice s (w * k) (w * k + w) /\ w * k < length s.
Proof.
  revert s k. induction fuel as [|fuel IH]; intros s k H.
  - destruct k; discriminate.
  - destruct s as [|c s]; [destruct k; discriminate|]. cbn [strides] in H.
    destruct k as [|k].
    + injection H as <-. unfold slice. rewrite Nat.mul_0_r. simpl; split; [|lia].
      f_equal. lia.
    + cbn [nth_error] in H. apply IH in H as [-> Hlt].
      rewrite length_skipn in Hlt. unfold slice. rewrite skipn_skipn. split; [|lia].
      f_equal; [lia | f_equal; lia].
Qed.

Lemma strides_lengths (w fuel : nat) (s : jsstring) :
  0 < w -> Forall (fun t => 0 < length t <= w) (strides w fuel s).
Proof.
  intros Hw. revert s. induction fuel as [|fuel IH]; intros s; [constructor|].
  destruct s as [|c s]; [constructor|]. cbn [strides]. constructor; [|apply IH].
  rewrite length_firstn. simpl length. lia.
Qed.

(** Every piece but the last has exactly [w] code units. *)
Lemma strides_full (w fuel : nat) (s : jsstring) (k : nat) (t : jsstring) :
  nth_error (strides w fuel s) k = Some t -> S k < length (strides w fuel s) ->
  length t = w.
Proof.
  revert s k. induction fuel as [|fuel IH]; intros s k H Hk.
  - destruct k; discriminate.
  - destruct s as [|c s]; [destruct k; discriminate|]. cbn [strides] in *.
    destruct k as [|k].
    + injection H as <-. rewrite length_firstn. cbn [length] in Hk.
      destruct fuel; [simpl in Hk; lia|].
      destruct (skipn w (c :: s)) eqn:E; [simpl in Hk; lia|].
      assert (length (skipn w (c :: s)) > 0) as Hl by (rewrite E; simpl; lia).
      rewrite length_skipn in Hl. lia.
    + cbn [nth_error] in H. cbn [length] in Hk. apply IH in H; [assumption | lia].
Qed.

Section ChunkerFacts.

Variable now : nat -> N.

Lemma chunk_id_of_inj (j k : nat) : chunk_id_of now j = chunk_id_of now k -> j = k.
Proof.
  unfold chunk_id_of. change (js "_") with [95%N]. simpl. intros H.
  apply underscore_split in H as [_ H]; try apply number_to_string_digits.
  apply number_to_string_inj in H. lia.
Qed.

Lemma fold_push (ts : list jsstring) (st : chunker_state) :
  fold_left (push now) ts st =
  {| chunks := chunks st ++ numbered now (chunkId st) ts;
     chunkId := chunkId st + length ts |}.
Proof.
  revert st. induction ts as [|t ts IH]; intros [cs k]; simpl.
  - rewrite app_nil_r, Nat.add_0_r. reflexivity.
  - rewrite IH. simpl. unfold numbered. rewrite <- app_assoc. simpl.
    f_equal. lia.
Qed.

(** The loop pushes the strides of what is left of [p] from index [i] on,
    whenever the fuel covers the remaining length. *)
Lemma slice_loop_fuel (fuel : nat) (p : jsstring) (i : nat) (st : chunker_state) :
  length p <= i + fuel ->
  slice_loop now fuel p i st = fold_left (push now) (strides 800 fuel (skipn i p)) st.
Proof.
  revert i st. induction fuel as [|fuel IH]; intros i st H; [reflexivity|].
  cbn [slice_loop]. destruct (Nat.ltb_spec i (length p)) as [Hlt|Hge].
  - rewrite IH by lia.
    destruct (skipn i p) as [|c s] eqn:E.
    { apply (f_equal (@length _)) in E. rewrite length_skipn in E. simpl in E. lia. }
    cbn [strides fold_left]. rewrite <- E. unfold slice.
    replace (i + 800 - i) with 800 by lia.
    rewrite skipn_skipn. replace (800 + i) with (i + 800) by lia. reflexivity.
  - rewrite skipn_all2 by lia. reflexivity.
Qed.

Lemma chunk_paragraph_pieces (st : chunker_state) (p : jsstring) :
  chunk_paragraph now st p = fold_left (push now) (pieces p) st.
Proof.
  unfold chunk_paragraph, pieces. destruct (length p <=? 1000); [reflexivity|].
  rewrite slice_loop_fuel by lia. reflexivity.
Qed.

Lemma fold_chunk_paragraph (ps : list jsstring) (st : chunker_state) :
  fold_left (chunk_paragraph now) ps st = fold_left (push now) (flat_map pieces ps) st.
Proof.
  revert st. induction ps as [|p ps IH]; intros st; [reflexivity|].
  cbn [fold_left flat_map]. rewrite fold_left_app, IH, chunk_paragraph_pieces.
  reflexivity.
Qed.

(** The chunks of a document: the pieces of its paragraphs, numbered from 0. *)
Lemma chunker_numbered (t : jsstring) :
  chunker now t = numbered now 0 (flat_map pieces (paragraphs t)).
Proof.
  unfold chunker. destruct (truthy t && (0 <? length (trim t))) eqn:G.
  - rewrite fold_chunk_paragraph, fold_push. reflexivity.
  - rewrite (paragraphs_guard t G). reflexivity.
Qed.

Lemma numbered_text (k : nat) (ts : list jsstring) : map text (numbered now k ts) = ts.
Proof.
  unfold numbered. revert k. induction ts as [|t ts IH]; intros k; simpl; [reflexivity|].
  rewrite IH. reflexivity.
Qed.

Lemma numbered_id (k : nat) (ts : list jsstring) :
  map id (numbered now k ts) = map (chunk_id_of now) (seq k (length ts)).
Proof.
  unfold numbered. revert k. induction ts as [|t ts IH]; intros k; simpl; [reflexivity|].
  rewrite IH. reflexivity.
Qed.

Lemma numbered_length (k : nat) (ts : list jsstring) : length (numbered now k ts) = length ts.
Proof. rewrite <- (length_map text), numbered_text. reflexivity. Qed.

End ChunkerFacts.

Lemma letters_length (n : nat) : length (letters n) = n.
Proof. unfold letters. rewrite length_map, length_seq. reflexivity. Qed.

Lemma pieces_lengths (p : jsstring) : Forall (fun t => length t <= 1000) (pieces p).
Proof.
  unfold pieces. destruct (Nat.leb_spec (length p) 1000) as [H|H].
  - constructor; [assumption | constructor].
  - eapply List.Forall_impl; [|apply (strides_lengths 800); lia].
    simpl. intros t Ht. lia.
Qed.

Lemma pieces_short (p : jsstring) : length p <= 1000 -> pieces p = [p].
Proof. intros H. unfold pieces. destruct (Nat.leb_spec (length p) 1000); [reflexivity | lia]. Qed.

Lemma pieces_long (p : jsstring) : 1000 < length p -> pieces p = strides 800 (length p) p.
Proof. intros H. unfold pieces. destruct (Nat.leb_spec (length p) 1000); [lia | reflexivity]. Qed.

(** C4: every chunk of [chunker extractedText] has a text of at most 1000 code
    units, whatever the length of the paragraph it comes from; and a paragraph of
    exactly 1000 code units contributes exactly one chunk, whose text is the
    whole paragraph. *)
Theorem C4_chunk_text_bounded (now : nat -> N) (extractedText : jsstring) :
  Forall (fun c => length (text c) <= 1000) (chunker now extractedText)
  /\ (forall before p after,
        paragraphs extractedText = before ++ p :: after ->
        length p = 1000 ->
        map text (chunker now extractedText)
        = flat_map pieces before ++ [p] ++ flat_map pieces after).
Proof.
  rewrite chunker_numbered. split.
  - apply (proj1 (List.Forall_map text (fun t => length t <= 1000) _)).
    rewrite numbered_text. apply List.Forall_flat_map.
    apply List.Forall_forall. intros p _. apply pieces_lengths.
  - intros before p after E Hp. rewrite numbered_text, E, flat_map_app.
    cbn [flat_map]. rewrite (pieces_short p) by lia. reflexivity.
Qed.

Lemma C4_chunk_text_bounded_witness :
  paragraphs (letters 1000) = [] ++ letters 1000 :: []
  /\ length (letters 1000) = 1000
  /\ map text (chunker now0 (letters 1000)) = [letters 1000].
Proof.
  assert (paragraphs (letters 1000) = [] ++ letters 1000 :: []) as E
    by (vm_compute; reflexivity).
  split; [exact E|]. split; [apply letters_length|].
  exact (proj2 (C4_chunk_text_bounded now0 (letters 1000)) [] (letters 1000) [] E
           (letters_length 1000)).
Defined.

(** C2, as stated, fails: the two slices of a paragraph of 1001 letters share
    no code unit, so the last 200 of the first are not the first 200 of the
    second. *)
Lemma C2_counterexample :
  ~ adjacent_overlap 200 (map text (chunker now0 (letters 1001))).
Proof.
  intros H.
  specialize (H 0 (slice (letters 1001) 0 800) (slice (letters 1001) 800 1600)).
  assert (map text (chunker now0 (letters 1001))
          = [slice (letters 1001) 0 800; slice (letters 1001) 800 1600]) as E
    by (vm_compute; reflexivity).
  rewrite E in H. specialize (H eq_refl eq_refl).
  vm_compute in H. discriminate H.
Qed.

(** C2, amended: a paragraph of more than 1000 code units is pushed as
    consecutive slices [p.slice(800k, 800k + 800)]: each has 800 code units
    except possibly the last, each starts where the previous one ends, and
    concatenated they give the paragraph back, so adjacent slices share nothing. *)
Theorem C2_slices_contiguous (now : nat -> N) (st : chunker_state) (p : jsstring) :
  1000 < length p ->
  exists ts,
    chunks (chunk_paragraph now st p) = chunks st ++ numbered now (chunkId st) ts
    /\ concat ts = p
    /\ 1 < length ts
    /\ forall k s, nth_error ts k = Some s ->
         s = slice p (800 * k) (800 * k + 800)
         /\ 0 < length s <= 800
         /\ (S k < length ts -> length s = 800).
Proof.
  intros Hp. exists (strides 800 (length p) p).
  rewrite chunk_paragraph_pieces, fold_push, (pieces_long p Hp). cbn [chunks].
  split; [reflexivity|]. split; [apply concat_strides; lia|]. split.
  - destruct (strides 800 (length p) p) as [|a [|b l]] eqn:E; [| |simpl; lia].
    + apply (f_equal (@concat _)) in E. rewrite concat_strides in E by lia.
      subst p. simpl in Hp. lia.
    + pose proof (strides_lengths 800 (length p) p ltac:(lia)) as Hl.
      rewrite E in Hl. inversion Hl; subst.
      apply (f_equal (@concat _)) in E. rewrite concat_strides in E by lia.
      simpl in E. rewrite app_nil_r in E. subst a. lia.
  - intros k s Hk. split; [apply (strides_nth _ _ _ _ _ Hk)|]. split.
    + pose proof (strides_lengths 800 (length p) p ltac:(lia)) as Hl.
      rewrite List.Forall_forall in Hl. apply Hl. eapply nth_error_In; eassumption.
    + intros HS. eapply strides_full; eassumption.
Qed.

Lemma C2_slices_contiguous_witness :
  1000 < length (letters 1001)
  /\ exists ts,
       chunks (chunk_paragraph now0 {| chunks := []; chunkId := 0 |} (letters 1001))
       = [] ++ numbered now0 0 ts
       /\ concat ts = letters 1001
       /\ 1 < length ts
       /\ forall k s, nth_error ts k = Some s ->
            s = slice (letters 1001) (800 * k) (800 * k + 800)
            /\ 0 < length s <= 800
            /\ (S k < length ts -> length s = 800).
Proof.
  assert (1000 < length (letters 1001)) as H by (rewrite letters_length; lia).
  split; [exact H|].
  exact (C2_slices_contiguous now0 {| chunks := []; chunkId := 0 |} (letters 1001) H).
Defined.

(** C5, as stated, fails: the chunk of a one-paragraph document has no
    [ordinal] property. *)
Lemma C5_counterexample : ~ has_ordinals (chunker now0 (js "short paragraph")).
Proof.
  intros H.
  destruct (chunker now0 (js "short paragraph")) as [|c cs] eqn:E;
    [vm_compute in E; discriminate E|].
  specialize (H 0 c eq_refl). destruct c as [i t]. vm_compute in H. discriminate H.
Qed.

(** C5, amended: every chunk is the object [{id, text}] and has no [ordinal]
    property; the identifier of the [k]-th chunk pushed (counting from 0) is
    [`${Date.now()}_${k}`], so the counter in it is the emission order and the
    identifiers of a document are pairwise distinct. *)
Theorem C5_chunk_ids (now : nat -> N) (extractedText : jsstring) :
  let cs := chunker now extractedText in
  map id cs = map (chunk_id_of now) (seq 0 (length cs))
  /\ List.NoDup (map id cs)
  /\ Forall (fun c => chunk_json c = JObj [(js "id", JStr (id c)); (js "text", JStr (text c))]
                      /\ get "ordinal" (chunk_json c) = None) cs.
Proof.
  intros cs. subst cs. rewrite chunker_numbered.
  rewrite numbered_id, numbered_length. split; [reflexivity|]. split.
  - apply Injective_map_NoDup; [|apply seq_NoDup].
    intros j k. apply chunk_id_of_inj.
  - apply List.Forall_forall. intros c _. split; reflexivity.
Qed.

(** ** Sorting *)

Section SortFacts.

Context {A : Type} (compareFn : A -> A -> Z).

Lemma sort_insert_In (x y : A) (l : list A) :
  In y (sort_insert compareFn x l) <-> y = x \/ In y l.
Proof.
  induction l as [|z l IH]; simpl.
  - intuition.
  - destruct (0 <? compareFn x z)%Z; simpl; [rewrite IH|]; intuition.
Qed.

Lemma sort_In (y : A) (l : list A) : In y (sort compareFn l) <-> In y l.
Proof.
  induction l as [|x l IH]; simpl; [reflexivity|].
  rewrite sort_insert_In, IH. intuition.
Qed.

Lemma sort_insert_filter_length (p : A -> bool) (x : A) (l : list A) :
  length (List.filter p (sort_insert compareFn x l)) = length (List.filter p (x :: l)).
Proof.
  induction l as [|z l IH]; [reflexivity|]. cbn [sort_insert].
  destruct (0 <? compareFn x z)%Z; [|reflexivity].
  cbn [List.filter] in *. destruct (p z), (p x); cbn [length] in *; lia.
Qed.

Lemma sort_filter_length (p : A -> bool) (l : list A) :
  length (List.filter p (sort compareFn l)) = length (List.filter p l).
Proof.
  induction l as [|x l IH]; [reflexivity|]. cbn [sort].
  rewrite sort_insert_filter_length. cbn [List.filter].
  destruct (p x); cbn [length]; lia.
Qed.

(** Sorting commutes with a map that respects the comparison. *)
Lemma sort_map {B : Type} (cmpB : B -> B -> Z) (f : B -> A) (l : list B) :
  (forall x y, cmpB x y = compareFn (f x) (f y)) ->
  map f (sort cmpB l) = sort compareFn (map f l).
Proof.
  intros Hcmp. induction l as [|x l IH]; [reflexivity|]. cbn [sort map].
  rewrite <- IH. generalize (sort cmpB l). intros s.
  induction s as [|z s IHs]; [reflexivity|]. cbn [sort_insert map].
  rewrite <- Hcmp. destruct (0 <? cmpB x z)%Z; cbn [map]; [rewrite IHs|]; reflexivity.
Qed.

End SortFacts.

Lemma filter_map_comm {A B} (p : B -> bool) (f : A -> B) (l : list A) :
  List.filter p (map f l) = map f (List.filter (fun x => p (f x)) l).
Proof.
  induction l as [|x l IH]; [reflexivity|]. simpl.
  destruct (p (f x)); simpl; rewrite IH; reflexivity.
Qed.

Lemma StronglySorted_filter {A} (R : A -> A -> Prop) (p : A -> bool) (l : list A) :
  StronglySorted R l -> StronglySorted R (List.filter p l).
Proof.
  induction 1 as [|x l Hs IH Hx]; simpl; [constructor|].
  destruct (p x); [|assumption]. constructor; [assumption|].
  rewrite List.Forall_forall in *. intros y Hy. apply Hx.
  apply filter_In in Hy. tauto.
Qed.

Lemma firstn_In {A} (n : nat) (l : list A) (x : A) : In x (firstn n l) -> In x l.
Proof.
  revert n. induction l as [|y l IH]; intros [|n]; simpl; try tauto.
  intros [->|H]; [left; reflexivity | right; eapply IH; eassumption].
Qed.

Lemma StronglySorted_firstn {A} (R : A -> A -> Prop) (n : nat) (l : list A) :
  StronglySorted R l -> StronglySorted R (firstn n l).
Proof.
  intros H. revert n. induction H as [|x l Hs IH Hx]; intros [|n]; simpl; try constructor.
  - apply IH.
  - rewrite List.Forall_forall in *. intros y Hy. apply Hx.
    eapply firstn_In; eassumption.
Qed.

Lemma StronglySorted_map_in {A B} (R : A -> A -> Prop) (R' : B -> B -> Prop)
    (f : A -> B) (l : list A) :
  (forall x y, In x l -> In y l -> R x y -> R' (f x) (f y)) ->
  StronglySorted R l -> StronglySorted R' (map f l).
Proof.
  intros Hf H. induction H as [|x l Hs IH Hx]; simpl; constructor.
  - apply IH. intros a b Ha Hb. apply Hf; right; assumption.
  - rewrite List.Forall_forall in *. intros y Hy.
    apply in_map_iff in Hy as (z & <- & Hz). apply Hf; [left; reflexivity | right; assumption | auto].
Qed.

(** ** Scoring and selection *)

Section RetrieverFacts.

Variable toLowerCase : jsstring -> jsstring.

Local Abbreviation sc q := (chunk_score toLowerCase (words toLowerCase q)).
Local Abbreviation positive := (fun s : Scored => 0 <? score s).

Lemma scores_In (cs : list Chunk) (q : jsstring) (s : Scored) :
  In s (scores toLowerCase cs q) <-> exists c, In c cs /\ s = {| chunk := c; score := sc q c |}.
Proof.
  unfold scores. rewrite in_map_iff. split; intros (c & H1 & H2); exists c; auto.
Qed.

Lemma sorted_positive_length (cs : list Chunk) (q : jsstring) :
  length (List.filter positive (sort by_score_desc (scores toLowerCase cs q)))
  = length (List.filter (fun c => 0 <? sc q c) cs).
Proof.
  rewrite sort_filter_length. unfold scores.
  rewrite filter_map_comm, length_map. reflexivity.
Qed.

Lemma selected_length (cs : list Chunk) (q : jsstring) :
  let n := length (List.filter (fun c => 0 <? sc q c) cs) in
  length (selected toLowerCase cs q) = if n =? 0 then min 4 (length cs) else min 6 n.
Proof.
  intros n. unfold selected.
  set (sel := map chunk (firstn 6 (List.filter positive
                (sort by_score_desc (scores toLowerCase cs q))))).
  assert (length sel = min 6 n) as Hsel
    by (unfold sel; rewrite length_map, length_firstn, sorted_positive_length; reflexivity).
  destruct (Nat.eqb_spec n 0) as [Hn|Hn].
  - rewrite Hn in Hsel. change (min 6 0) with 0 in Hsel. rewrite Hsel.
    apply length_zero_iff_nil in Hsel. rewrite Hsel. simpl. apply length_firstn.
  - destruct (Nat.eqb_spec (length sel) 0); [lia | exact Hsel].
Qed.

Lemma selected_incl (cs : list Chunk) (q : jsstring) : incl (selected toLowerCase cs q) cs.
Proof.
  assert (incl (map chunk (firstn 6 (List.filter positive
                   (sort by_score_desc (scores toLowerCase cs q))))) cs) as Hsel.
  { intros c Hc. apply in_map_iff in Hc as (s & <- & Hs).
    apply firstn_In, filter_In in Hs as [Hs _].
    apply sort_In, scores_In in Hs as (c & Hc & ->). exact Hc. }
  unfold selected. destruct (length _ =? 0); [|exact Hsel].
  apply incl_app; [exact Hsel|]. intros c Hc. eapply firstn_In; eassumption.
Qed.

(** When no chunk scores, nothing is kept and the fall-back applies. *)
Lemma selected_fallback (cs : list Chunk) (q : jsstring) :
  Forall (fun c => sc q c = 0) cs -> selected toLowerCase cs q = firstn 4 cs.
Proof.
  intros H. unfold selected.
  assert (List.filter positive (sort by_score_desc (scores toLowerCase cs q)) = []) as ->.
  { apply length_zero_iff_nil. rewrite sorted_positive_length.
    apply length_zero_iff_nil. induction H as [|c cs Hc _ IH]; [reflexivity|].
    simpl. rewrite Hc. simpl. exact IH. }
  reflexivity.
Qed.

End RetrieverFacts.

(** C1, as stated, fails: with two chunks of which only the first contains the
    word of the question, one chunk is returned, not [min(6, 2)]. *)
Lemma C1_counterexample :
  length (selected toLowerCase_ascii sample_chunks (js "alpha"))
  <> min 6 (length sample_chunks).
Proof. vm_compute. discriminate. Qed.

(** C1, amended: for a non-empty chunk sequence the selection is never empty;
    it has [min(6, n)] chunks when [n > 0] chunks have a positive score, and
    [min(4, chunk count)] chunks when none has; so never more than
    [min(6, chunk count)]. *)
Theorem C1_selected_length (toLowerCase : jsstring -> jsstring)
    (cs : list Chunk) (question : jsstring) :
  cs <> [] ->
  let n := length (List.filter
                     (fun c => 0 <? chunk_score toLowerCase (words toLowerCase question) c) cs) in
  selected toLowerCase cs question <> []
  /\ length (selected toLowerCase cs question)
     = (if n =? 0 then min 4 (length cs) else min 6 n)
  /\ length (selected toLowerCase cs question) <= min 6 (length cs).
Proof.
  intros Hcs n.
  pose proof (selected_length toLowerCase cs question) as Hlen. cbv zeta in Hlen. fold n in Hlen.
  assert (n <= length cs) as Hn by apply filter_length_le.
  assert (0 < length cs) as Hpos by (destruct cs; [congruence | simpl; lia]).
  split; [|split; [exact Hlen|]].
  - intros E. rewrite E in Hlen. change (length (@nil Chunk)) with 0 in Hlen.
    destruct (Nat.eqb_spec n 0); lia.
  - rewrite Hlen. destruct (Nat.eqb_spec n 0); lia.
Qed.

Lemma C1_selected_length_witness :
  sample_chunks <> []
  /\ selected toLowerCase_ascii sample_chunks (js "alpha") <> []
  /\ length (selected toLowerCase_ascii sample_chunks (js "alpha")) = 1.
Proof.
  assert (sample_chunks <> []) as H by discriminate.
  split; [exact H|].
  destruct (C1_selected_length toLowerCase_ascii sample_chunks (js "alpha") H) as (H1 & H2 & _).
  split; [exact H1|]. rewrite H2. vm_compute. reflexivity.
Defined.

(** C3: when no chunk has a strictly positive score, the selection is exactly
    the first [min(4, chunk count)] chunks in their original order, and it is
    not empty when the document has a chunk. *)
Theorem C3_fallback (toLowerCase : jsstring -> jsstring)
    (cs : list Chunk) (question : jsstring) :
  Forall (fun c => chunk_score toLowerCase (words toLowerCase question) c = 0) cs ->
  selected toLowerCase cs question = firstn 4 cs
  /\ length (selected toLowerCase cs question) = min 4 (length cs)
  /\ (cs = [] \/ selected toLowerCase cs question <> []).
Proof.
  intros H. rewrite (selected_fallback toLowerCase cs question H).
  split; [reflexivity|]. split; [apply length_firstn|].
  destruct cs; [left; reflexivity | right; discriminate].
Qed.

Lemma C3_fallback_witness :
  Forall (fun c => chunk_score toLowerCase_ascii
                     (words toLowerCase_ascii (js "unrelated quantum gravity topic")) c = 0)
         sample_chunks
  /\ selected toLowerCase_ascii sample_chunks (js "unrelated quantum gravity topic")
     = sample_chunks.
Proof.
  assert (Forall (fun c => chunk_score toLowerCase_ascii
                     (words toLowerCase_ascii (js "unrelated quantum gravity topic")) c = 0)
            sample_chunks) as H
    by (repeat constructor; vm_compute; reflexivity).
  split; [exact H|].
  exact (proj1 (C3_fallback toLowerCase_ascii sample_chunks
                  (js "unrelated quantum gravity topic") H)).
Defined.

(** ** The order of the selection *)

Section OrderFacts.

Variable toLowerCase : jsstring -> jsstring.
Variable cs : list Chunk.
Variable question : jsstring.

Local Abbreviation sc := (chunk_score toLowerCase (words toLowerCase question)).
Local Abbreviation positive := (fun s : Scored => 0 <? score s).
Local Abbreviation cmpI := (fun a b : nat * Scored => by_score_desc (snd a) (snd b)).
Local Abbreviation rankI :=
(fun x y : nat * Scored =>
   score (snd y) < score (snd x) \/ (score (snd x) = score (snd y) /\ fst x < fst y)).

Lemma indexed_scores_snd (l : list Chunk) (k : nat) :
map snd (indexed_scores toLowerCase l question k) = scores toLowerCase l question.
Proof.
unfold indexed_scores, scores. revert k.
induction l as [|c l IH]; intros k; simpl; [reflexivity|]. rewrite IH. reflexivity.
Qed.

Lemma indexed_scores_In (l : list Chunk) (k : nat) (x : nat * Scored) :
In x (indexed_scores toLowerCase l question k) ->
k <= fst x /\ nth_error l (fst x - k) = Some (chunk (snd x))
/\ score (snd x) = sc (chunk (snd x)).
Proof.
unfold indexed_scores. revert k.
induction l as [|c l IH]; intros k; simpl; [tauto|].
intros [<-|H]; simpl.
- rewrite Nat.sub_diag. auto.
- apply IH in H as (H1 & H2 & H3). split; [lia|]. split; [|exact H3].
  replace (fst x - k) with (S (fst x - S k)) by lia. exact H2.
Qed.

Lemma indexed_scores_sorted (l : list Chunk) (k : nat) :
StronglySorted (fun x y : nat * Scored => fst x < fst y)
  (indexed_scores toLowerCase l question k).
Proof.
revert k. induction l as [|c l IH]; intros k; [constructor|].
unfold indexed_scores. cbn [mapi]. constructor; [apply IH|].
apply List.Forall_forall. intros y Hy.
apply indexed_scores_In in Hy as (Hy & _). simpl. lia.
Qed.

Lemma sort_insert_ranked (x : nat * Scored) (l : list (nat * Scored)) :
StronglySorted rankI l -> Forall (fun y => fst x < fst y) l ->
StronglySorted rankI (sort_insert cmpI x l).
Proof.
intros Hs. induction Hs as [|y l Hs IH Hy]; intros Hx; cbn [sort_insert].
- repeat constructor.
- inversion Hx as [|? ? Hxy Hxl]; subst.
  unfold by_score_desc. destruct (Z.ltb_spec 0 (Z.of_nat (score (snd y)) - Z.of_nat (score (snd x)))).
  + constructor; [apply IH; assumption|].
    apply List.Forall_forall. intros z Hz. apply sort_insert_In in Hz as [->|Hz].
    * left. lia.
    * rewrite List.Forall_forall in Hy. apply Hy, Hz.
  + constructor; [constructor; assumption|].
    constructor.
    * destruct (Nat.eq_dec (score (snd x)) (score (snd y))); [right | left]; lia.
    * rewrite List.Forall_forall in *. intros z Hz.
      specialize (Hy z Hz). specialize (Hxl z Hz). simpl in *.
      destruct (Nat.eq_dec (score (snd x)) (score (snd z))); [right | left]; lia.
Qed.

Lemma sort_ranked (l : list (nat * Scored)) :
StronglySorted (fun x y : nat * Scored => fst x < fst y) l ->
StronglySorted rankI (sort cmpI l).
Proof.
induction 1 as [|x l Hs IH Hx]; cbn [sort]; [constructor|].
apply sort_insert_ranked; [exact IH|].
rewrite List.Forall_forall in *. intros y Hy. apply Hx. apply sort_In in Hy. exact Hy.
Qed.

Lemma nth_error_seq_firstn {A} (l : list A) (m : nat) :
map (nth_error l) (seq 0 (min m (length l))) = map Some (firstn m l).
Proof.
revert m. induction l as [|a l IH]; intros m.
- rewrite Nat.min_0_r, firstn_nil. reflexivity.
- destruct m as [|m]; [reflexivity|]. cbn [length firstn map].
  rewrite <- Nat.succ_min_distr. cbn [seq map nth_error]. f_equal.
  rewrite <- seq_shift, map_map. cbn [nth_error]. apply IH.
Qed.

Lemma seq_sorted (R : nat -> nat -> Prop) (s n : nat) :
(forall i j, i < j -> R i j) -> StronglySorted R (seq s n).
Proof.
intros HR. revert s. induction n as [|n IH]; intros s; cbn [seq]; constructor; [apply IH|].
apply List.Forall_forall. intros y Hy. apply in_seq in Hy. apply HR. lia.
Qed.

End OrderFacts.

(** ** Tokens and literal matching *)

Lemma word_char_not_special (c : code_unit) :
  is_word_char c = true -> regexp_special c = false.
Proof.
  intros H. destruct (regexp_special c) eqn:E; [exfalso | reflexivity].
  unfold regexp_special in E. unfold is_word_char in H.
  rewrite !orb_true_iff, !N.eqb_eq in E.
  rewrite !orb_true_iff, !andb_true_iff, !N.leb_le, N.eqb_eq in H. lia.
Qed.

(** The pattern built for a word denotes that word, literally. *)
Lemma regexp_literal_escape (w : jsstring) : regexp_literal (escape_regexp w) = Some w.
Proof.
  induction w as [|c w IH]; [reflexivity|].
  unfold escape_regexp in *. cbn [flat_map].
  destruct (regexp_special c) eqn:Hc; cbn [app regexp_literal].
  - rewrite Hc, IH. reflexivity.
  - destruct (N.eqb_spec c 92) as [->|_]; [discriminate Hc|].
    rewrite Hc, IH. reflexivity.
Qed.

Lemma found_count_matches (w txt : jsstring) : found w txt = count_matches w txt 0.
Proof. unfold found. rewrite regexp_literal_escape. reflexivity. Qed.

Lemma escape_regexp_word (w : jsstring) :
  forallb is_word_char w = true -> escape_regexp w = w.
Proof.
  unfold escape_regexp. induction w as [|c w IH]; [reflexivity|]. cbn [forallb flat_map].
  intros [Hc Hw]%andb_true_iff. rewrite (word_char_not_special c Hc), IH by exact Hw.
  reflexivity.
Qed.

Lemma starts_with_app (lit txt : jsstring) :
  starts_with lit txt = true <-> exists post, txt = lit ++ post.
Proof.
  revert txt. induction lit as [|a lit IH]; intros txt; simpl.
  - split; [intros _; exists txt; reflexivity | reflexivity].
  - destruct txt as [|b txt].
    + split; [discriminate | intros (post & H); discriminate H].
    + unfold code_unit_eqb. rewrite andb_true_iff, N.eqb_eq, IH. split.
      * intros (-> & post & ->). exists post. reflexivity.
      * intros (post & [= -> ->]). split; [reflexivity | exists post; reflexivity].
Qed.

(** A literal is counted at least once exactly when it occurs in the text. *)
Lemma count_matches_pos (lit txt : jsstring) :
  0 < count_matches lit txt 0 <-> exists pre post, txt = pre ++ lit ++ post.
Proof.
  split.
  - generalize 0 at 2. intros skip. revert skip.
    induction txt as [|c txt IH]; intros skip; cbn [count_matches].
    + destruct skip; simpl; [|lia].
      destruct (starts_with lit []) eqn:E; [|lia].
      apply starts_with_app in E as (post & E). intros _. exists [], post. exact E.
    + destruct skip as [|skip].
      * destruct (starts_with lit (c :: txt)) eqn:E.
        -- apply starts_with_app in E as (post & E). intros _. exists [], post. exact E.
        -- intros (pre & post & ->)%IH. exists (c :: pre), post. reflexivity.
      * intros (pre & post & ->)%IH. exists (c :: pre), post. reflexivity.
  - intros (pre & post & ->). induction pre as [|c pre IH].
    + cbn [app]. assert (starts_with lit (lit ++ post) = true) as E
        by (apply starts_with_app; exists post; reflexivity).
      destruct (lit ++ post) as [|c t]; cbn [count_matches]; rewrite ?E; simpl; lia.
    + cbn [app count_matches]. destruct (starts_with lit (c :: pre ++ lit ++ post)); [lia|].
      exact IH.
Qed.

Lemma split_runs_pieces (sep : code_unit -> bool) (s cur : jsstring) (b : bool) :
  Forall (fun c => sep c = false) cur ->
  Forall (Forall (fun c => sep c = false)) (split_runs sep s cur b).
Proof.
  revert cur b. induction s as [|c s IH]; intros cur b Hcur; simpl.
  - constructor; [apply Forall_rev; exact Hcur | constructor].
  - destruct (sep c) eqn:Hc.
    + destruct b; [apply IH; exact Hcur|].
      constructor; [apply Forall_rev; exact Hcur | apply IH; constructor].
    + apply IH. constructor; assumption.
Qed.

Section ScoreFacts.

Variable toLowerCase : jsstring -> jsstring.

Lemma words_word_chars (question : jsstring) :
Forall (fun w => w <> [] /\ forallb is_word_char w = true /\ escape_regexp w = w)
  (words toLowerCase question).
Proof.
unfold words, split_on. apply List.Forall_forall. intros w [Hw Ht]%filter_In.
assert (forallb is_word_char w = true) as Hall.
{ pose proof (split_runs_pieces is_nonword (toLowerCase question) [] false
                (List.Forall_nil _)) as H.
  rewrite List.Forall_forall in H. specialize (H w Hw).
  apply forallb_forall. rewrite List.Forall_forall in H. intros c Hc.
  specialize (H c Hc). unfold is_nonword in H. apply negb_false_iff in H. exact H. }
split; [destruct w; [discriminate Ht | discriminate]|].
split; [exact Hall | apply escape_regexp_word, Hall].
Qed.

(** The tokens, put end to end, are the word characters of the lower-cased
    question: splitting drops the non-word characters and nothing else. *)
Lemma split_runs_concat (sep : code_unit -> bool) (s cur : jsstring) (b : bool) :
  concat (List.filter truthy (split_runs sep s cur b))
  = rev cur ++ List.filter (fun c => negb (sep c)) s.
Proof.
  revert cur b. induction s as [|c s IH]; intros cur b; cbn [split_runs List.filter].
  - destruct (rev cur); simpl; rewrite ?app_nil_r; reflexivity.
  - destruct (sep c); cbn [negb].
    + destruct b; [apply IH|]. cbn [List.filter].
      destruct (rev cur) as [|x r]; cbn [truthy concat]; rewrite IH; reflexivity.
    + rewrite IH. cbn [rev]. rewrite <- app_assoc. reflexivity.
Qed.

Lemma words_concat (question : jsstring) :
  concat (words toLowerCase question) = List.filter is_word_char (toLowerCase question).
Proof.
  unfold words, split_on. rewrite split_runs_concat. cbn [rev app].
  apply filter_ext. intros c. unfold is_nonword. apply negb_involutive.
Qed.

Lemma chunk_score_sum (ws : list jsstring) (c : Chunk) :
chunk_score toLowerCase ws c
= list_sum (map (fun w => count_matches w (toLowerCase (text c)) 0)
              (List.filter (fun w => 3 <=? length w) ws)).
Proof.
unfold chunk_score.
assert (forall a, fold_left (fun score w => if length w <? 3 then score
                                             else score + found w (toLowerCase (text c))) ws a
                  = a + list_sum (map (fun w => count_matches w (toLowerCase (text c)) 0)
                                    (List.filter (fun w => 3 <=? length w) ws))) as H.
{ induction ws as [|w ws IH]; intros a; cbn [fold_left List.filter]; [simpl; lia|].
  rewrite IH. rewrite found_count_matches.
  destruct (Nat.ltb_spec (length w) 3), (Nat.leb_spec 3 (length w)); try lia.
  cbn [map]. unfold list_sum. cbn [fold_right]. lia. }
apply H.
Qed.

End ScoreFacts.

(** C7, as stated, fails: an underscore is not alphanumeric, yet it does not
    split the question; [foo_bar] is one token, which does not occur in the
    text, while the tokens [foo] and [bar] would each occur once. *)
Lemma C7_counterexample :
  chunk_score toLowerCase_ascii (words toLowerCase_ascii (js "foo_bar"))
    {| id := js "1700000000000_0"; text := js "Foo bar" |}
  <> spec_score toLowerCase_ascii (js "foo_bar")
       {| id := js "1700000000000_0"; text := js "Foo bar" |}.
Proof. vm_compute. discriminate. Qed.

(** C7, amended: the question is lower-cased and split at the runs of non-word
    characters, a word character being a letter [A-Z] or [a-z], a digit or an
    underscore; so every token is a non-empty string of word characters, which
    the escaping leaves unchanged.  Tokens of fewer than 3 code units are
    skipped, and the score of a chunk is the sum, over the remaining tokens, of
    the number of left-to-right non-overlapping occurrences of the token in the
    lower-cased text of the chunk. *)
Theorem C7_score (toLowerCase : jsstring -> jsstring) (question : jsstring) (c : Chunk) :
  words toLowerCase question
  = List.filter truthy (split_on (fun u => negb (is_word_char u)) (toLowerCase question))
  /\ Forall (fun w => w <> [] /\ forallb is_word_char w = true /\ escape_regexp w = w)
       (words toLowerCase question)
  /\ concat (words toLowerCase question) = List.filter is_word_char (toLowerCase question)
  /\ chunk_score toLowerCase (words toLowerCase question) c
     = list_sum (map (fun w => count_matches w (toLowerCase (text c)) 0)
                   (List.filter (fun w => 3 <=? length w) (words toLowerCase question)))
  /\ (forall w, 0 < count_matches w (toLowerCase (text c)) 0
                <-> exists pre post, toLowerCase (text c) = pre ++ w ++ post).
Proof.
  split; [reflexivity|]. split; [apply words_word_chars|].
  split; [apply words_concat|]. split; [apply chunk_score_sum|].
  intros w. apply count_matches_pos.
Qed.

(** ** The metadata store and the handlers *)

Lemma as_chunks_chunk_json (cs : list Chunk) : as_chunks (map chunk_json cs) = Some cs.
Proof.
  induction cs as [|[i t] cs IH]; [reflexivity|].
  cbn [map as_chunks]. rewrite IH. reflexivity.
Qed.

(** The chunk sequence read back from a record is the one that was put in it,
    in the same order. *)
Lemma chunks_or_empty_meta_json (m : Meta.t) :
  chunks_or_empty (meta_json m) = Some (Meta.chunks m).
Proof.
  unfold chunks_or_empty, meta_json.
  change (get "chunks" (JObj ?fields)) with (Some (JArr (map chunk_json (Meta.chunks m)))).
  apply as_chunks_chunk_json.
Qed.

Section HandlerFacts.

Variable UPLOAD_DIR : jsstring.
Variable path_join : jsstring -> jsstring -> jsstring.
Variable JSON_stringify : json -> jsstring.
Variable JSON_parse : jsstring -> json + jsstring.
Variable toLowerCase : jsstring -> jsstring.
Variable groqClient : option (jsstring -> chat_opts -> (jsstring * json) + jsstring).
Variable extractAndParseJson : jsstring -> json.

Local Abbreviation metaPath' := (metaPath UPLOAD_DIR path_join).
Local Abbreviation load' := (load UPLOAD_DIR path_join JSON_parse).
Local Abbreviation save' := (save UPLOAD_DIR path_join JSON_stringify).
Local Abbreviation file_qa' := (file_qa UPLOAD_DIR path_join JSON_parse toLowerCase groqClient).
Local Abbreviation file_quiz' :=
(file_quiz UPLOAD_DIR path_join JSON_parse groqClient extractAndParseJson).

(** A lookup reads the whole file or nothing, and leaves the directory as it is. *)
Lemma load_spec (key : jsstring) (fs : gmap jsstring jsstring) :
load' key fs
= (match fs !! metaPath' key with
   | None => NotFound
   | Some data =>
       match JSON_parse data with
       | inl meta => Found meta
       | inr e => ParseError e
       end
   end, fs).
Proof.
unfold load, bind, existsSync, readFileSync, ret.
destruct (fs !! metaPath' key) as [data|] eqn:E; cbn [negb]; rewrite ?E; [|reflexivity].
destruct (JSON_parse data); reflexivity.
Qed.

Lemma save_spec (m : Meta.t) (fs : gmap jsstring jsstring) :
save' m fs = (tt, <[metaPath' (Meta.filename m) := JSON_stringify (meta_json m)]> fs).
Proof. reflexivity. Qed.

(** An upload writes the record of the file, whole, and nothing else. *)
Lemma upload_saves (f : File.t) (extractedText : jsstring) (now : nat -> N)
    (record_id iso_now : jsstring) (fs : gmap jsstring jsstring) :
  snd (upload UPLOAD_DIR path_join JSON_stringify groqClient (Some f) extractedText now
         record_id iso_now fs)
  = snd (save' (upload_meta f extractedText now record_id iso_now) fs).
Proof. reflexivity. Qed.

Lemma file_qa_fs (fileFilename question : option jsstring) (fs : gmap jsstring jsstring) :
snd (file_qa' fileFilename question fs) = fs.
Proof.
unfold file_qa.
destruct fileFilename as [f|], question as [q|]; try reflexivity.
destruct (truthy f && truthy q); [|reflexivity].
unfold bind. rewrite load_spec.
destruct (fs !! metaPath' f) as [data|]; [|reflexivity].
destruct (JSON_parse data) as [meta|e]; [|reflexivity].
destruct (chunks_or_empty meta) as [cs|]; [|reflexivity].
destruct groqClient as [chat|]; [|reflexivity].
destruct (chat _ _) as [[txt raw]|e]; reflexivity.
Qed.

Lemma file_quiz_fs (fileFilename : option jsstring) (fs : gmap jsstring jsstring) :
snd (file_quiz' fileFilename fs) = fs.
Proof.
unfold file_quiz.
destruct fileFilename as [f|]; try reflexivity.
destruct (truthy f); [|reflexivity].
unfold bind. rewrite load_spec.
destruct (fs !! metaPath' f) as [data|]; [|reflexivity].
destruct (JSON_parse data) as [meta|e]; [|reflexivity].
destruct (chunks_or_empty meta) as [cs|]; [|reflexivity].
destruct (length cs =? 0); [reflexivity|].
destruct groqClient as [chat|]; [|reflexivity].
destruct (chat _ _) as [[txt raw]|e]; [|reflexivity].
destruct (truthy_json _); reflexivity.
Qed.

(** What the two query handlers answer for a stored record without chunks. *)
Lemma empty_chunks_responses (f q data : jsstring) (meta : json)
  (fs : gmap jsstring jsstring) :
truthy f = true -> truthy q = true ->
fs !! metaPath' f = Some data -> JSON_parse data = inl meta ->
chunks_or_empty meta = Some [] ->
fst (file_quiz' (Some f) fs) = error_response 400 (js "No extracted text available")
/\ fst (file_qa' (Some f) (Some q) fs)
   = match groqClient with
     | None => error_response 500 (js "Groq client not configured")
     | Some chat =>
         match chat (file_qa_prompt [] q) opts_file_qa with
         | inl (text, raw) =>
             Respond 200 (JObj [(js "ok", JBool true); (js "text", JStr text);
                                (js "raw", raw); (js "usedChunks", JArr [])])
         | inr e => error_response 500 e
         end
     end.
Proof.
intros Hf Hq Hfs Hparse Hcs. split.
- unfold file_quiz. rewrite Hf. unfold bind. cbv beta iota.
  rewrite load_spec, Hfs, Hparse, Hcs. reflexivity.
- unfold file_qa. rewrite Hf, Hq. unfold bind. cbn [andb]. cbv beta iota.
  rewrite load_spec, Hfs, Hparse, Hcs.
  change (selected toLowerCase [] q) with (@nil Chunk).
  destruct groqClient as [chat|]; [|reflexivity].
  destruct (chat _ _) as [[txt raw]|e]; reflexivity.
Qed.

Local Abbreviation save_all' := (save_all UPLOAD_DIR path_join JSON_stringify).

Lemma save_all_cons (m : Meta.t) (rest : list Meta.t) (fs : gmap jsstring jsstring) :
snd (save_all' (m :: rest) fs)
= snd (save_all' rest (<[metaPath' (Meta.filename m) := JSON_stringify (meta_json m)]> fs)).
Proof. reflexivity. Qed.

Lemma save_all_app (l1 l2 : list Meta.t) (fs : gmap jsstring jsstring) :
snd (save_all' (l1 ++ l2) fs) = snd (save_all' l2 (snd (save_all' l1 fs))).
Proof.
revert fs. induction l1 as [|m l1 IH]; intros fs; [reflexivity|].
cbn [app]. rewrite !save_all_cons. apply IH.
Qed.

(** What a path holds after a series of saves: what it held before when no
    record went there, the serialization of a saved record otherwise. *)
Lemma save_all_lookup (l : list Meta.t) (p : jsstring) (fs : gmap jsstring jsstring) :
(Forall (fun m => metaPath' (Meta.filename m) <> p) l
 /\ snd (save_all' l fs) !! p = fs !! p)
\/ exists m, In m l /\ metaPath' (Meta.filename m) = p
             /\ snd (save_all' l fs) !! p = Some (JSON_stringify (meta_json m)).
Proof.
revert fs. induction l as [|m l IH]; intros fs.
- left. split; [constructor | reflexivity].
- rewrite save_all_cons.
  destruct (IH (<[metaPath' (Meta.filename m) := JSON_stringify (meta_json m)]> fs))
    as [[Hl E]|(m' & Hin & Hp & E)].
  + destruct (decide (metaPath' (Meta.filename m) = p)) as [Hp|Hp].
    * right. exists m. split; [left; reflexivity|]. split; [exact Hp|].
      rewrite E, <- Hp. apply lookup_insert_eq.
    * left. split; [constructor; assumption|].
      rewrite E. apply lookup_insert_ne. exact Hp.
  + right. exists m'. split; [right; exact Hin|]. auto.
Qed.

Lemma save_all_lookup_ne (l : list Meta.t) (p : jsstring) (fs : gmap jsstring jsstring) :
Forall (fun m => metaPath' (Meta.filename m) <> p) l ->
snd (save_all' l fs) !! p = fs !! p.
Proof.
intros H. destruct (save_all_lookup l p fs) as [[_ E]|(m & Hin & Hp & _)]; [exact E|].
rewrite List.Forall_forall in H. destruct (H m Hin Hp).
Qed.

End HandlerFacts.

Lemma populated_meta_json (m : Meta.t) : populated (meta_json m).
Proof. repeat constructor; discriminate. Qed.

(** C8, as stated, fails in its second half: a lookup parses whatever file is
    at the sidecar path and checks no property.  For a directory that holds
    the object with the single property [id] at such a path, the lookup
    returns that object, which lacks seven of the eight properties of a
    record, the chunk sequence among them. *)
Lemma C8_counterexample :
  fst (load (js "uploads") sample_path_join sample_parse (js "1700000000000-x") partial_dir)
  = Found partial_record
  /\ ~ populated partial_record
  /\ get "chunks" partial_record = None.
Proof.
  split; [|split; [|reflexivity]].
  - rewrite load_spec. unfold partial_dir.
    assert (metaPath (js "uploads") sample_path_join (js "1700000000000-x")
            = sample_path_join (js "uploads") (js "1700000000000-x.meta.json")) as ->
      by (vm_compute; reflexivity).
    rewrite lookup_insert_eq.
    assert (sample_parse (sample_print partial_record) = inl partial_record) as ->
      by (vm_compute; reflexivity).
    reflexivity.
  - intros H. unfold populated, record_keys in H.
    inversion H as [|? ? _ H']; subst. inversion H' as [|? ? Hname _]; subst.
    apply Hname. reflexivity.
Qed.

(** C8, amended: for records saved one after the other by the upload handler,
    [JSON.parse] inverting [JSON.stringify] on each of them as ECMAScript
    specifies for strings, integers, arrays and plain objects.  A lookup under
    the file name of a record returns that record whole (all eight properties
    with their saved values, the chunk sequence in its order) when no later
    save went to the same path, so in particular right after its own save, and
    whatever the directory held before.  In a directory written by these saves
    only, every lookup reports that there is no record or returns one of the
    saved records, whole.  A lookup reports a missing record exactly when
    there is no file at the sidecar path. *)
Theorem C8_save_load_round_trip
    (UPLOAD_DIR : jsstring) (path_join : jsstring -> jsstring -> jsstring)
    (JSON_stringify : json -> jsstring) (JSON_parse : jsstring -> json + jsstring)
    (saved : list Meta.t) :
  Forall (fun m => JSON_parse (JSON_stringify (meta_json m)) = inl (meta_json m)) saved ->
  (forall (before : list Meta.t) (record : Meta.t) (after : list Meta.t)
          (fs : gmap jsstring jsstring),
     saved = before ++ record :: after ->
     Forall (fun m => metaPath UPLOAD_DIR path_join (Meta.filename m)
                      <> metaPath UPLOAD_DIR path_join (Meta.filename record)) after ->
     let fs' := snd (save_all UPLOAD_DIR path_join JSON_stringify saved fs) in
     load UPLOAD_DIR path_join JSON_parse (Meta.filename record) fs'
     = (Found (meta_json record), fs')
     /\ chunks_or_empty (meta_json record) = Some (Meta.chunks record)
     /\ populated (meta_json record))
  /\ (forall key : jsstring,
        let dir := snd (save_all UPLOAD_DIR path_join JSON_stringify saved empty_dir) in
        match fst (load UPLOAD_DIR path_join JSON_parse key dir) with
        | NotFound =>
            Forall (fun m => metaPath UPLOAD_DIR path_join (Meta.filename m)
                             <> metaPath UPLOAD_DIR path_join key) saved
        | Found v =>
            exists m, In m saved
                      /\ metaPath UPLOAD_DIR path_join (Meta.filename m)
                         = metaPath UPLOAD_DIR path_join key
                      /\ v = meta_json m
        | ParseError _ => False
        end)
  /\ forall (key : jsstring) (fs : gmap jsstring jsstring),
       fst (load UPLOAD_DIR path_join JSON_parse key fs) = NotFound
       <-> fs !! metaPath UPLOAD_DIR path_join key = None.
Proof.
  intros Hrt. rewrite List.Forall_forall in Hrt. split; [|split].
  - intros before record after fs -> Hafter fs'.
    split; [|split; [apply chunks_or_empty_meta_json | apply populated_meta_json]].
    rewrite load_spec.
    assert (fs' !! metaPath UPLOAD_DIR path_join (Meta.filename record)
            = Some (JSON_stringify (meta_json record))) as ->.
    { subst fs'. rewrite save_all_app, save_all_cons.
      rewrite save_all_lookup_ne by exact Hafter. apply lookup_insert_eq. }
    rewrite (Hrt record) by (apply in_or_app; right; left; reflexivity).
    reflexivity.
  - intros key dir. rewrite load_spec. cbn [fst].
    destruct (save_all_lookup UPLOAD_DIR path_join JSON_stringify saved
                (metaPath UPLOAD_DIR path_join key) empty_dir)
      as [[Hnone E]|(m & Hin & Hp & E)]; fold dir in E; rewrite E.
    + unfold empty_dir. rewrite lookup_empty. exact Hnone.
    + rewrite (Hrt m Hin). exists m. auto.
  - intros key fs. rewrite load_spec. cbn [fst].
    destruct (fs !! metaPath UPLOAD_DIR path_join key) as [data|].
    + destruct (JSON_parse data); split; discriminate.
    + split; reflexivity.
Qed.

Lemma C8_save_load_round_trip_witness :
  fst (load (js "uploads") sample_path_join sample_parse (Meta.filename sample_meta)
         (snd (save_all (js "uploads") sample_path_join sample_print
                 [sample_meta; sample_meta_empty] partial_dir)))
  = Found (meta_json sample_meta).
Proof.
  assert (Forall (fun m => sample_parse (sample_print (meta_json m)) = inl (meta_json m))
            [sample_meta; sample_meta_empty]) as H
    by (repeat constructor; vm_compute; reflexivity).
  assert (Forall (fun m => metaPath (js "uploads") sample_path_join (Meta.filename m)
                           <> metaPath (js "uploads") sample_path_join
                                (Meta.filename sample_meta)) [sample_meta_empty]) as Hafter
    by (repeat constructor; vm_compute; discriminate).
  rewrite (proj1 (proj1 (C8_save_load_round_trip (js "uploads") sample_path_join
                           sample_print sample_parse [sample_meta; sample_meta_empty] H)
                    [] sample_meta [sample_meta_empty] partial_dir eq_refl Hafter)).
  reflexivity.
Defined.

(** C9: for a stored record whose chunk sequence is empty, the quiz handler
    answers 400 [No extracted text available]; the question-answering handler
    has no such check: it builds the prompt with an empty context, calls the
    language model and answers 200 with the model's text and no used chunk
    (or 500 when the client is missing or the call throws). *)
Theorem C9_empty_chunks_responses
    (UPLOAD_DIR : jsstring) (path_join : jsstring -> jsstring -> jsstring)
    (JSON_parse : jsstring -> json + jsstring) (toLowerCase : jsstring -> jsstring)
    (groqClient : option (jsstring -> chat_opts -> (jsstring * json) + jsstring))
    (extractAndParseJson : jsstring -> json)
    (f q data : jsstring) (meta : json) (fs : gmap jsstring jsstring) :
  truthy f = true -> truthy q = true ->
  fs !! metaPath UPLOAD_DIR path_join f = Some data -> JSON_parse data = inl meta ->
  chunks_or_empty meta = Some [] ->
  fst (file_quiz UPLOAD_DIR path_join JSON_parse groqClient extractAndParseJson (Some f) fs)
  = error_response 400 (js "No extracted text available")
  /\ fst (file_qa UPLOAD_DIR path_join JSON_parse toLowerCase groqClient (Some f) (Some q) fs)
     = match groqClient with
       | None => error_response 500 (js "Groq client not configured")
       | Some chat =>
           match chat (file_qa_prompt [] q) opts_file_qa with
           | inl (text, raw) =>
               Respond 200 (JObj [(js "ok", JBool true); (js "text", JStr text);
                                  (js "raw", raw); (js "usedChunks", JArr [])])
           | inr e => error_response 500 e
           end
       end.
Proof. apply empty_chunks_responses. Qed.

Lemma C9_empty_chunks_responses_witness :
  fst (file_quiz (js "uploads") sample_path_join sample_parse (Some sample_client)
         (fun _ => JNull) (Some (Meta.filename sample_meta_empty))
         (snd (save (js "uploads") sample_path_join sample_print sample_meta_empty empty_dir)))
  = error_response 400 (js "No extracted text available")
  /\ fst (file_qa (js "uploads") sample_path_join sample_parse toLowerCase_ascii
            (Some sample_client) (Some (Meta.filename sample_meta_empty))
            (Some (js "What is this about?"))
            (snd (save (js "uploads") sample_path_join sample_print sample_meta_empty empty_dir)))
     = Respond 200 (JObj [(js "ok", JBool true);
                          (js "text", JStr (js "I cannot find the answer in the provided document."));
                          (js "raw", JNull); (js "usedChunks", JArr [])]).
Proof.
  refine (C9_empty_chunks_responses (js "uploads") sample_path_join sample_parse
            toLowerCase_ascii (Some sample_client) (fun _ => JNull)
            (Meta.filename sample_meta_empty) (js "What is this about?")
            (sample_print (meta_json sample_meta_empty)) (meta_json sample_meta_empty)
            _ _ _ _ _ _).
  - reflexivity.
  - reflexivity.
  - rewrite save_spec. cbn [snd]. apply lookup_insert_eq.
  - vm_compute. reflexivity.
  - reflexivity.
Defined.

(** C10: a query reads and never writes: both query handlers leave the uploads
    directory, and with it every stored record, as it was; and every chunk of
    the selection is one of the stored chunks itself, with the [id] and the
    [text] it has in the record. *)
Theorem C10_retrieval_read_only
    (UPLOAD_DIR : jsstring) (path_join : jsstring -> jsstring -> jsstring)
    (JSON_parse : jsstring -> json + jsstring) (toLowerCase : jsstring -> jsstring)
    (groqClient : option (jsstring -> chat_opts -> (jsstring * json) + jsstring))
    (extractAndParseJson : jsstring -> json)
    (fileFilename question : option jsstring) (fs : gmap jsstring jsstring)
    (cs : list Chunk) (q : jsstring) :
  snd (file_qa UPLOAD_DIR path_join JSON_parse toLowerCase groqClient fileFilename question fs)
  = fs
  /\ snd (file_quiz UPLOAD_DIR path_join JSON_parse groqClient extractAndParseJson
            fileFilename fs) = fs
  /\ incl (selected toLowerCase cs q) cs.
Proof.
  split; [apply file_qa_fs|]. split; [apply file_quiz_fs | apply selected_incl].
Qed.

(** * Further properties of the pipeline *)

(** ** Paragraphs and chunks *)

Lemma trimStart_clean (s : jsstring) : starts_clean (trimStart s).
Proof.
  induction s as [|c s IH]; simpl; [exact I|].
  destruct (is_js_whitespace c) eqn:Hc; [exact IH | exact Hc].
Qed.

Lemma trimStart_id (s : jsstring) : starts_clean s -> trimStart s = s.
Proof. destruct s as [|c s]; simpl; [reflexivity|]. intros ->. reflexivity. Qed.

(** [trimStart] drops a run of whitespace from the front and nothing else. *)
Lemma trimStart_split (s : jsstring) :
  exists w, all_whitespace w /\ s = w ++ trimStart s.
Proof.
  induction s as [|c s (w & Hw & E)]; simpl.
  - exists []. split; [constructor | reflexivity].
  - destruct (is_js_whitespace c) eqn:Hc.
    + exists (c :: w). split; [constructor; assumption | simpl; congruence].
    + exists []. split; [constructor | reflexivity].
Qed.

Lemma trimEnd_split (s : jsstring) :
  exists w, all_whitespace w /\ s = trimEnd s ++ w.
Proof.
  unfold trimEnd. destruct (trimStart_split (rev s)) as (w & Hw & E).
  exists (rev w). split; [apply Forall_rev; exact Hw|].
  rewrite <- rev_app_distr, <- E, rev_involutive. reflexivity.
Qed.

Lemma trimEnd_clean (s : jsstring) : starts_clean s -> starts_clean (trimEnd s).
Proof.
  intros Hs. destruct (trimEnd_split s) as (w & _ & E).
  destruct (trimEnd s) as [|c u]; [exact I|].
  rewrite E in Hs. exact Hs.
Qed.

Lemma trim_clean (s : jsstring) : starts_clean (trim s) /\ starts_clean (rev (trim s)).
Proof.
  unfold trim. split; [apply trimEnd_clean, trimStart_clean|].
  unfold trimEnd. rewrite rev_involutive. apply trimStart_clean.
Qed.

Lemma trim_fixed (s : jsstring) :
  starts_clean s -> starts_clean (rev s) -> trim s = s.
Proof.
  intros H1 H2. unfold trim, trimEnd.
  rewrite (trimStart_id s H1), (trimStart_id (rev s) H2). apply rev_involutive.
Qed.

Lemma trim_Forall (P : code_unit -> Prop) (s : jsstring) : Forall P s -> Forall P (trim s).
Proof.
  intros H. unfold trim.
  destruct (trimStart_split s) as (w & _ & E).
  destruct (trimEnd_split (trimStart s)) as (w' & _ & E').
  rewrite E, E' in H. apply Forall_app in H as [_ H]. apply Forall_app in H as [H _].
  exact H.
Qed.

(** Every code unit of the text is a separator or lies in one of the pieces. *)
Lemma split_runs_cover (P : code_unit -> Prop) sep (s cur : jsstring) (b : bool) :
  (forall c, sep c = true -> P c) ->
  Forall (Forall P) (split_runs sep s cur b) -> Forall P s /\ Forall P cur.
Proof.
  intros Hsep. revert cur b. induction s as [|c s IH]; intros cur b H; simpl in H.
  - inversion H as [|? ? Hrev _]; subst. split; [constructor|].
    apply Forall_rev in Hrev. rewrite rev_involutive in Hrev. exact Hrev.
  - destruct (sep c) eqn:Hc.
    + destruct b.
      * apply IH in H as [Hs Hcur]. split; [constructor; auto | exact Hcur].
      * inversion H as [|? ? Hrev Hrest]; subst. apply IH in Hrest as [Hs _].
        split; [constructor; auto|].
        apply Forall_rev in Hrev. rewrite rev_involutive in Hrev. exact Hrev.
    + apply IH in H as [Hs Hcur]. inversion Hcur; subst.
      split; [constructor; assumption | assumption].
Qed.

Lemma strides_Forall (P : code_unit -> Prop) (w fuel : nat) (s : jsstring) :
  Forall P s -> Forall (Forall P) (strides w fuel s).
Proof.
  revert s. induction fuel as [|fuel IH]; intros s Hs; [constructor|].
  destruct s as [|c s]; [constructor|]. cbn [strides].
  rewrite <- (firstn_skipn w (c :: s)) in Hs. apply Forall_app in Hs as [H1 H2].
  constructor; [exact H1 | apply IH, H2].
Qed.

Lemma strides_count (fuel : nat) (s : jsstring) :
  length s <= fuel ->
  length s <= 800 * length (strides 800 fuel s)
  /\ (s <> [] -> 800 * length (strides 800 fuel s) < length s + 800).
Proof.
  revert s. induction fuel as [|fuel IH]; intros s Hf.
  - destruct s; [|simpl in Hf; lia]. split; [simpl; lia | congruence].
  - destruct s as [|c s]; [split; [simpl; lia | congruence]|].
    cbn [strides length].
    assert (length (skipn 800 (c :: s)) <= fuel) as Hf'
      by (rewrite length_skipn; cbn [length] in *; lia).
    destruct (IH _ Hf') as [H1 H2]. rewrite length_skipn in H1. cbn [length] in H1.
    split; [lia|]. intros _.
    destruct (skipn 800 (c :: s)) as [|d r] eqn:E.
    + destruct fuel; cbn [strides length]; lia.
    + assert (length (skipn 800 (c :: s)) = S (length r)) as El by (rewrite E; reflexivity).
      rewrite length_skipn in El. cbn [length] in El.
      specialize (H2 ltac:(discriminate)). cbn [length] in H2. lia.
Qed.

Lemma pieces_nonempty (p : jsstring) : p <> [] -> pieces p <> [].
Proof.
  intros Hp. unfold pieces. destruct (length p <=? 1000); [discriminate|].
  destruct p as [|c p]; [congruence|]. cbn [length strides]. discriminate.
Qed.

Lemma concat_pieces (p : jsstring) : concat (pieces p) = p.
Proof.
  unfold pieces. destruct (length p <=? 1000).
  - simpl. apply app_nil_r.
  - apply concat_strides; lia.
Qed.

Lemma paragraphs_In (t p : jsstring) :
  In p (paragraphs t) ->
  p <> [] /\ exists piece, In piece (split_on is_newline t) /\ p = trim piece.
Proof.
  unfold paragraphs. intros [Hin Ht]%filter_In.
  apply in_map_iff in Hin as (piece & <- & Hpiece).
  split; [destruct (trim piece); [discriminate Ht | discriminate]|].
  exists piece. auto.
Qed.

Lemma paragraphs_facts (extractedText : jsstring) :
  Forall (fun p => p <> []
                   /\ Forall (fun c => c <> 10%N) p
                   /\ starts_clean p /\ starts_clean (rev p)
                   /\ trim p = p)
         (paragraphs extractedText).
Proof.
  apply List.Forall_forall. intros p (Hne & piece & Hpiece & ->)%paragraphs_In.
  split; [exact Hne|]. split.
  - apply trim_Forall.
    pose proof (split_runs_pieces is_newline extractedText [] false (List.Forall_nil _)) as H.
    rewrite List.Forall_forall in H. specialize (H piece Hpiece).
    eapply List.Forall_impl; [|exact H]. intros c Hc ->. discriminate Hc.
  - destruct (trim_clean piece) as [H1 H2]. split; [exact H1|]. split; [exact H2|].
    apply trim_fixed; assumption.
Qed.

(** Every paragraph is non-empty, contains no line feed, and neither starts nor
    ends with whitespace (it is a fixed point of [trim]). *)
Theorem paragraphs_trimmed (extractedText : jsstring) :
  Forall (fun p => p <> []
                   /\ Forall (fun c => c <> 10%N) p
                   /\ starts_clean p /\ starts_clean (rev p)
                   /\ trim p = p)
         (paragraphs extractedText).
Proof. apply paragraphs_facts. Qed.

Lemma chunker_blank (now : nat -> N) (extractedText : jsstring) :
  chunker now extractedText = [] <-> all_whitespace extractedText.
Proof.
  split.
  - rewrite chunker_numbered. intros H.
    apply (f_equal (@length _)) in H. rewrite numbered_length in H.
    apply length_zero_iff_nil in H.
    assert (paragraphs extractedText = []) as Hps.
    { destruct (paragraphs extractedText) as [|p ps] eqn:E; [reflexivity|]. exfalso.
      assert (In p (paragraphs extractedText)) as Hp by (rewrite E; left; reflexivity).
      apply paragraphs_In in Hp as [Hp _]. apply pieces_nonempty in Hp.
      cbn [flat_map] in H. destruct (pieces p); [congruence | discriminate H]. }
    unfold paragraphs, split_on in Hps.
    apply (split_runs_cover (fun c => is_js_whitespace c = true) is_newline
             extractedText [] false).
    + intros c Hc. unfold is_newline in Hc. apply N.eqb_eq in Hc. subst c. reflexivity.
    + induction (split_runs is_newline extractedText [] false) as [|x l IH];
        [constructor|].
      cbn [map List.filter] in Hps. destruct (trim x) eqn:Ex; [|discriminate Hps].
      constructor; [apply trim_nil; exact Ex | apply IH; exact Hps].
  - intros H. apply trim_nil in H. unfold chunker. rewrite H.
    destruct (truthy extractedText); reflexivity.
Qed.

(** The chunker produces no chunk exactly when the extracted text is empty or
    consists of whitespace only. *)
Theorem chunker_nil_iff_blank (now : nat -> N) (extractedText : jsstring) :
  chunker now extractedText = [] <-> all_whitespace extractedText.
Proof. apply chunker_blank. Qed.

(** No chunk is empty and no chunk contains a line feed. *)
Theorem chunk_texts_nonempty (now : nat -> N) (extractedText : jsstring) :
  Forall (fun c => text c <> [] /\ Forall (fun u => u <> 10%N) (text c))
         (chunker now extractedText).
Proof.
  rewrite chunker_numbered.
  apply (proj1 (List.Forall_map text
                  (fun t => t <> [] /\ Forall (fun u => u <> 10%N) t) _)).
  rewrite numbered_text. apply List.Forall_flat_map.
  pose proof (paragraphs_facts extractedText) as Hps.
  eapply List.Forall_impl; [|exact Hps]. intros p (Hne & Hlf & _).
  unfold pieces. destruct (length p <=? 1000).
  - constructor; [split; assumption | constructor].
  - pose proof (strides_lengths 800 (length p) p ltac:(lia)) as Hl.
    pose proof (strides_Forall _ 800 (length p) p Hlf) as Hf.
    rewrite List.Forall_forall in *. intros s Hs. split; [|apply Hf, Hs].
    specialize (Hl s Hs). destruct s; [simpl in Hl; lia | discriminate].
Qed.

(** Chunking loses and repeats nothing: the chunk texts, put end to end, are
    the paragraphs put end to end. *)
Theorem chunker_preserves_text (now : nat -> N) (extractedText : jsstring) :
  concat (map text (chunker now extractedText)) = concat (paragraphs extractedText).
Proof.
  rewrite chunker_numbered, numbered_text.
  induction (paragraphs extractedText) as [|p ps IH]; [reflexivity|].
  cbn [flat_map concat]. rewrite concat_app, concat_pieces, IH. reflexivity.
Qed.

(** One paragraph adds [n] chunks and advances the counter by [n], where [n] is
    1 for a paragraph of at most 1000 code units and the least [n] with
    [length <= 800 n] for a longer one. *)
Theorem chunk_paragraph_count (now : nat -> N) (st : chunker_state) (p : jsstring) :
  exists n,
    length (chunks (chunk_paragraph now st p)) = length (chunks st) + n
    /\ chunkId (chunk_paragraph now st p) = chunkId st + n
    /\ (if length p <=? 1000 then n = 1
        else length p <= 800 * n /\ 800 * n < length p + 800).
Proof.
  exists (length (pieces p)). rewrite chunk_paragraph_pieces, fold_push. cbn [chunks chunkId].
  rewrite length_app, numbered_length. split; [reflexivity|]. split; [reflexivity|].
  unfold pieces. destruct (Nat.leb_spec (length p) 1000) as [H|H]; [reflexivity|].
  destruct (strides_count (length p) p (le_n _)) as [H1 H2].
  split; [exact H1|]. apply H2. destruct p; [simpl in H; lia | discriminate].
Qed.

(** ** Matching and sorting *)

Lemma starts_with_length (lit txt : jsstring) :
  starts_with lit txt = true -> length lit <= length txt.
Proof.
  intros (post & ->)%starts_with_app. rewrite length_app. lia.
Qed.

Lemma count_matches_bound (lit txt : jsstring) (skip : nat) :
  lit <> [] -> count_matches lit txt skip * length lit <= length txt - skip.
Proof.
  intros Hlit. revert skip. induction txt as [|c txt IH]; intros skip; cbn [count_matches].
  - destruct lit; [congruence|]. simpl. rewrite andb_false_r. simpl. lia.
  - destruct skip as [|skip].
    + destruct (starts_with lit (c :: txt)) eqn:E.
      * apply starts_with_length in E. cbn [length] in E.
        specialize (IH (length lit - 1)). rewrite Nat.mul_succ_l. cbn [length]. lia.
      * specialize (IH 0). cbn [length]. lia.
    + specialize (IH skip). cbn [length]. lia.
Qed.

(** The pattern built from a token denotes the token itself, whatever
    characters it contains: the count is positive exactly when the token occurs
    in the text, and the counted occurrences do not overlap. *)
Theorem found_literal (w txt : jsstring) :
  regexp_literal (escape_regexp w) = Some w
  /\ (0 < found w txt <-> exists pre post, txt = pre ++ w ++ post)
  /\ found w txt * length w <= length txt.
Proof.
  split; [apply regexp_literal_escape|]. rewrite found_count_matches.
  split; [apply count_matches_pos|].
  destruct w as [|c w]; [simpl; lia|].
  pose proof (count_matches_bound (c :: w) txt 0 ltac:(discriminate)). lia.
Qed.

Section SortMore.

Context {A : Type} (compareFn : A -> A -> Z).

Lemma sort_insert_Permutation (x : A) (l : list A) :
  Permutation (sort_insert compareFn x l) (x :: l).
Proof.
  induction l as [|y l IH]; cbn [sort_insert]; [reflexivity|].
  destruct (0 <? compareFn x y)%Z; [|reflexivity].
  rewrite IH. apply perm_swap.
Qed.

Lemma sort_Permutation (l : list A) : Permutation (sort compareFn l) l.
Proof.
  induction l as [|x l IH]; cbn [sort]; [reflexivity|].
  rewrite sort_insert_Permutation, IH. reflexivity.
Qed.

End SortMore.

Lemma sort_insert_desc (x : Scored) (l : list Scored) :
  StronglySorted (fun a b => score b <= score a) l ->
  StronglySorted (fun a b => score b <= score a) (sort_insert by_score_desc x l).
Proof.
  induction 1 as [|y l Hs IH Hy]; cbn [sort_insert]; [repeat constructor|].
  unfold by_score_desc.
  destruct (Z.ltb_spec 0 (Z.of_nat (score y) - Z.of_nat (score x))).
  - constructor; [exact IH|]. apply List.Forall_forall. intros z Hz.
    apply sort_insert_In in Hz as [->|Hz]; [lia|].
    rewrite List.Forall_forall in Hy. apply Hy, Hz.
  - constructor; [constructor; assumption|]. constructor; [lia|].
    rewrite List.Forall_forall in *. intros z Hz. specialize (Hy z Hz). lia.
Qed.

Lemma sort_insert_stable (v : nat) (x : Scored) (l : list Scored) :
  List.filter (fun s => score s =? v) (sort_insert by_score_desc x l)
  = List.filter (fun s => score s =? v) (x :: l).
Proof.
  induction l as [|y l IH]; [reflexivity|]. cbn [sort_insert].
  destruct (Z.ltb_spec 0 (by_score_desc x y)) as [Hlt|_]; [|reflexivity].
  unfold by_score_desc in Hlt.
  change (List.filter (fun s => score s =? v) (y :: sort_insert by_score_desc x l))
    with (if score y =? v
          then y :: List.filter (fun s => score s =? v) (sort_insert by_score_desc x l)
          else List.filter (fun s => score s =? v) (sort_insert by_score_desc x l)).
  rewrite IH. cbn [List.filter].
  destruct (Nat.eqb_spec (score y) v), (Nat.eqb_spec (score x) v); try reflexivity. lia.
Qed.

(** [scores.sort((a,b) => b.score - a.score)] rearranges the scored chunks
    without losing or repeating one, lists them by descending score, and keeps
    chunks of equal score in the order they had. *)
Theorem sort_by_score_stable (l : list Scored) :
  Permutation (sort by_score_desc l) l
  /\ StronglySorted (fun a b => score b <= score a) (sort by_score_desc l)
  /\ forall v, List.filter (fun s => score s =? v) (sort by_score_desc l)
               = List.filter (fun s => score s =? v) l.
Proof.
  split; [apply sort_Permutation|]. split.
  - induction l as [|x l IH]; cbn [sort]; [constructor | apply sort_insert_desc, IH].
  - intros v. induction l as [|x l IH]; [reflexivity|]. cbn [sort].
    rewrite sort_insert_stable. cbn [List.filter]. rewrite IH. reflexivity.
Qed.

(** ** The six best chunks *)

Lemma StronglySorted_app_inv {A} (R : A -> A -> Prop) (l1 l2 : list A) :
  StronglySorted R (l1 ++ l2) -> forall x y, In x l1 -> In y l2 -> R x y.
Proof.
  induction l1 as [|a l1 IH]; intros H x y Hx Hy; [destruct Hx|].
  cbn [app] in H. inversion H as [|? ? Hs Ha]; subst. destruct Hx as [->|Hx].
  - rewrite List.Forall_forall in Ha. apply Ha, in_or_app. right. exact Hy.
  - eapply IH; eassumption.
Qed.

Lemma StronglySorted_NoDup {A} (R : A -> A -> Prop) (l : list A) :
  (forall x, ~ R x x) -> StronglySorted R l -> List.NoDup l.
Proof.
  intros Hirr. induction 1 as [|x l Hs IH Hx]; constructor; [|exact IH].
  intros Hin. rewrite List.Forall_forall in Hx. exact (Hirr x (Hx x Hin)).
Qed.

Section TopFacts.

Variable toLowerCase : jsstring -> jsstring.
Variable cs : list Chunk.
Variable question : jsstring.

Local Abbreviation sc := (chunk_score toLowerCase (words toLowerCase question)).
Local Abbreviation positive := (fun s : Scored => 0 <? score s).
Local Abbreviation cmpI := (fun a b : nat * Scored => by_score_desc (snd a) (snd b)).
Local Abbreviation rankI :=
  (fun x y : nat * Scored =>
     score (snd y) < score (snd x) \/ (score (snd x) = score (snd y) /\ fst x < fst y)).
Local Abbreviation rank := (ranks_before (score_at toLowerCase cs question)).

Lemma indexed_scores_mem (l : list Chunk) (k j : nat) (c : Chunk) :
  nth_error l j = Some c ->
  In (k + j, {| chunk := c; score := sc c |}) (indexed_scores toLowerCase l question k).
Proof.
  unfold indexed_scores. revert k j. induction l as [|d l IH]; intros k j H.
  - destruct j; discriminate H.
  - destruct j as [|j]; cbn [nth_error mapi] in *.
    + injection H as ->. left. rewrite Nat.add_0_r. reflexivity.
    + right. replace (k + S j) with (S k + j) by lia. apply IH, H.
Qed.

Lemma selected_spec :
  exists idx : list nat,
    map (nth_error cs) idx = map Some (selected toLowerCase cs question)
    /\ ranked_selection (score_at toLowerCase cs question) (length cs) idx.
Proof.
  set (F := List.filter (fun x => positive (snd x))
              (sort cmpI (indexed_scores toLowerCase cs question 0))).
  set (L := firstn 6 F).
  assert (map snd L = firstn 6 (List.filter positive
                        (sort by_score_desc (scores toLowerCase cs question)))) as HL.
  { unfold L, F. rewrite <- (indexed_scores_snd toLowerCase question cs 0).
    rewrite <- (sort_map by_score_desc cmpI snd) by reflexivity.
    rewrite (filter_map_comm positive snd), firstn_map. reflexivity. }
  assert (forall x, In x F -> nth_error cs (fst x) = Some (chunk (snd x))
                               /\ score (snd x) = sc (chunk (snd x))
                               /\ 0 < score (snd x)) as HF.
  { intros x Hx. unfold F in Hx. apply filter_In in Hx as [Hx Hpos].
    apply sort_In, indexed_scores_In in Hx as (_ & H1 & H2).
    rewrite Nat.sub_0_r in H1. apply Nat.ltb_lt in Hpos. auto. }
  assert (forall x, In x F -> score_at toLowerCase cs question (fst x) = score (snd x))
    as Hat.
  { intros x Hx. unfold score_at. destruct (HF x Hx) as (-> & <- & _). reflexivity. }
  assert (StronglySorted rankI F) as HsF.
  { unfold F. apply StronglySorted_filter, sort_ranked, indexed_scores_sorted. }
  assert (forall x, In x L -> In x F) as HLF by (intros x; apply firstn_In).
  assert (StronglySorted rank (map fst L)) as Hs.
  { apply (StronglySorted_map_in rankI); [|apply StronglySorted_firstn, HsF].
    intros x y Hx Hy Hxy. unfold ranks_before.
    rewrite (Hat x (HLF x Hx)), (Hat y (HLF y Hy)). exact Hxy. }
  unfold selected, ranked_selection. rewrite <- HL.
  destruct (Nat.eqb_spec (length (map chunk (map snd L))) 0) as [E|E].
  - exists (seq 0 (min 4 (length cs))).
    apply length_zero_iff_nil in E. rewrite E. cbn [app].
    apply map_eq_nil, map_eq_nil in E.
    assert (F = []) as HFnil.
    { unfold L in E. destruct F; [reflexivity | discriminate E]. }
    assert (forall i, score_at toLowerCase cs question i = 0) as Hzero.
    { intros i. unfold score_at. destruct (nth_error cs i) as [c|] eqn:Hi; [|reflexivity].
      destruct (sc c) as [|n] eqn:Hn; [reflexivity|]. exfalso.
      assert (In (0 + i, {| chunk := c; score := sc c |}) F) as Hin.
      { unfold F. apply filter_In. split; [|simpl; rewrite Hn; reflexivity].
        apply sort_In, indexed_scores_mem, Hi. }
      rewrite HFnil in Hin. destruct Hin. }
    split; [apply nth_error_seq_firstn|]. split.
    { apply seq_sorted. intros i j Hij. right. rewrite !Hzero. split; [reflexivity | exact Hij]. }
    split; [rewrite length_seq; lia|]. split; [right; auto|].
    intros j Hj. rewrite Hzero in Hj. lia.
  - exists (map fst L). split; [|split; [|split; [|split]]].
    + rewrite !map_map. apply map_ext_in. intros x Hx. apply (HF x (HLF x Hx)).
    + exact Hs.
    + rewrite length_map. unfold L. rewrite length_firstn. lia.
    + left. split.
      * intros Hnil. apply E. rewrite !length_map.
        rewrite <- (length_map fst), Hnil. reflexivity.
      * apply List.Forall_forall. intros i (x & <- & Hx)%in_map_iff.
        rewrite (Hat x (HLF x Hx)). apply (HF x (HLF x Hx)).
    + intros j Hj Hnot. unfold score_at in Hj.
      destruct (nth_error cs j) as [c|] eqn:Hc; [|lia].
      assert (In (0 + j, {| chunk := c; score := sc c |}) F) as Hin.
      { unfold F. apply filter_In. split; [|simpl; apply Nat.ltb_lt; exact Hj].
        apply sort_In, indexed_scores_mem, Hc. }
      cbn [Nat.add] in Hin. rewrite <- (firstn_skipn 6 F) in Hin, HsF. fold L in Hin, HsF.
      apply in_app_or in Hin as [Hin|Hin].
      { exfalso. apply Hnot. apply in_map_iff. exists (j, {| chunk := c; score := sc c |}).
        split; [reflexivity | exact Hin]. }
      split.
      * rewrite length_map. unfold L. rewrite length_firstn.
        assert (0 < length (skipn 6 F)) as Hlen
          by (destruct (skipn 6 F); [destruct Hin | simpl; lia]).
        rewrite length_skipn in Hlen. lia.
      * apply List.Forall_forall. intros i (x & <- & Hx)%in_map_iff.
        pose proof (StronglySorted_app_inv _ _ _ HsF x _ Hx Hin) as Hr.
        unfold ranks_before. rewrite (Hat x (HLF x Hx)).
        assert (score_at toLowerCase cs question j = sc c) as ->
          by (unfold score_at; rewrite Hc; reflexivity).
        exact Hr.
Qed.

Lemma selected_top :
  exists idx : list nat,
    map (nth_error cs) idx = map Some (selected toLowerCase cs question)
    /\ List.NoDup idx
    /\ length idx <= 6
    /\ (Forall (fun i => 0 < score_at toLowerCase cs question i) idx
        \/ ((forall i, score_at toLowerCase cs question i = 0)
            /\ idx = seq 0 (min 4 (length cs))))
    /\ forall j, 0 < score_at toLowerCase cs question j -> ~ In j idx ->
         length idx = 6 /\ Forall (fun i => rank i j) idx.
Proof.
  destruct selected_spec as (idx & Hmap & Hs & Hlen & Hbr & Htop).
  exists idx. split; [exact Hmap|]. split.
  { apply (StronglySorted_NoDup rank); [|exact Hs]. intros x [H|[_ H]]; lia. }
  split; [exact Hlen|]. split; [|exact Htop].
  destruct Hbr as [[_ H]|H]; [left | right]; exact H.
Qed.

End TopFacts.

(** ** The selection is fixed by the scores *)

Lemma ranks_before_asym (sc : nat -> nat) (i j : nat) :
  ranks_before sc i j -> ranks_before sc j i -> False.
Proof. unfold ranks_before. lia. Qed.

Lemma StronglySorted_unique {A} (R : A -> A -> Prop) (l1 l2 : list A) :
  (forall x y, R x y -> R y x -> False) ->
  StronglySorted R l1 -> StronglySorted R l2 -> incl l1 l2 -> incl l2 l1 -> l1 = l2.
Proof.
  intros Hasym H1. revert l2.
  induction H1 as [|x l1 Hs1 IH Hx]; intros l2 H2 H12 H21.
  - destruct l2 as [|y l2]; [reflexivity|]. destruct (H21 y (or_introl eq_refl)).
  - destruct H2 as [|y l2 Hs2 Hy]; [destruct (H12 x (or_introl eq_refl))|].
    rewrite List.Forall_forall in Hx, Hy.
    assert (x = y) as <-.
    { destruct (H12 x (or_introl eq_refl)) as [E|Hin]; [symmetry; exact E|].
      destruct (H21 y (or_introl eq_refl)) as [E|Hin']; [exact E|].
      destruct (Hasym x y (Hx y Hin') (Hy x Hin)). }
    f_equal. apply IH; [exact Hs2 | |].
    + intros z Hz. destruct (H12 z (or_intror Hz)) as [E|Hin]; [|exact Hin].
      subst z. destruct (Hasym x x (Hx x Hz) (Hx x Hz)).
    + intros z Hz. destruct (H21 z (or_intror Hz)) as [E|Hin]; [|exact Hin].
      subst z. destruct (Hasym x x (Hy x Hz) (Hy x Hz)).
Qed.

Lemma ranked_selection_NoDup (sc : nat -> nat) (n : nat) (idx : list nat) :
  ranked_selection sc n idx -> List.NoDup idx.
Proof.
  intros (Hs & _). apply (StronglySorted_NoDup (ranks_before sc)); [|exact Hs].
  intros x H. exact (ranks_before_asym sc x x H H).
Qed.

(** Among positions with a positive score, two ranked selections list the same
    ones. *)
Lemma ranked_selection_incl (sc : nat -> nat) (n : nat) (idx idx' : list nat) :
  ranked_selection sc n idx -> ranked_selection sc n idx' ->
  Forall (fun i => 0 < sc i) idx -> Forall (fun i => 0 < sc i) idx' ->
  incl idx' idx.
Proof.
  intros H H' Hpos Hpos'. pose proof (ranked_selection_NoDup _ _ _ H) as Hnd.
  destruct H as (_ & Hlen & _ & Htop), H' as (_ & Hlen' & _ & Htop').
  rewrite List.Forall_forall in Hpos, Hpos'.
  intros j Hj. destruct (in_dec Nat.eq_dec j idx) as [Hin|Hout]; [exact Hin|]. exfalso.
  destruct (Htop j (Hpos' j Hj) Hout) as [Hsix Hbefore].
  rewrite List.Forall_forall in Hbefore.
  assert (incl idx idx') as Hincl.
  { intros i Hi. destruct (in_dec Nat.eq_dec i idx') as [Hin|Hout']; [exact Hin|]. exfalso.
    destruct (Htop' i (Hpos i Hi) Hout') as [_ Hbefore'].
    rewrite List.Forall_forall in Hbefore'.
    exact (ranks_before_asym sc i j (Hbefore i Hi) (Hbefore' j Hj)). }
  apply Hout. apply (List.NoDup_length_incl (l' := idx') Hnd); [lia | exact Hincl | exact Hj].
Qed.

Lemma ranked_selection_unique (sc : nat -> nat) (n : nat) (idx idx' : list nat) :
  ranked_selection sc n idx -> ranked_selection sc n idx' -> idx = idx'.
Proof.
  intros H H'.
  assert (forall l, l <> [] -> Forall (fun i => 0 < sc i) l -> (forall i, sc i = 0) -> False)
    as Hmix.
  { intros [|i l] Hne Hl Hz; [congruence|]. inversion Hl as [|? ? Hi _]; subst.
    rewrite Hz in Hi. lia. }
  pose proof H as (Hs & _ & Hbr & _). pose proof H' as (Hs' & _ & Hbr' & _).
  destruct Hbr as [[Hne Hpos]|[Hz ->]], Hbr' as [[Hne' Hpos']|[Hz' ->]].
  - apply (StronglySorted_unique (ranks_before sc)); try assumption.
    + apply ranks_before_asym.
    + apply (ranked_selection_incl sc n idx' idx); assumption.
    + apply (ranked_selection_incl sc n idx idx'); assumption.
  - destruct (Hmix idx Hne Hpos Hz').
  - destruct (Hmix idx' Hne' Hpos' Hz).
  - reflexivity.
Qed.

Lemma ranked_selection_ext (sc sc' : nat -> nat) (n : nat) (idx : list nat) :
  (forall i, sc i = sc' i) -> ranked_selection sc n idx -> ranked_selection sc' n idx.
Proof.
  intros E (Hs & Hlen & Hbr & Htop).
  assert (forall i j, ranks_before sc i j -> ranks_before sc' i j) as Hr
    by (intros i j; unfold ranks_before; rewrite !E; auto).
  split; [|split; [exact Hlen|split]].
  - rewrite <- (map_id idx).
    apply (StronglySorted_map_in (ranks_before sc)); [|exact Hs]. intros x y _ _. apply Hr.
  - destruct Hbr as [[Hne Hpos]|[Hz Hidx]]; [left | right].
    + split; [exact Hne|]. eapply List.Forall_impl; [|exact Hpos].
      intros i Hi. cbv beta in *. rewrite <- E. exact Hi.
    + split; [|exact Hidx]. intros i. rewrite <- E. apply Hz.
  - intros j Hj Hout. rewrite <- E in Hj. destruct (Htop j Hj Hout) as [H6 Hb].
    split; [exact H6|]. eapply List.Forall_impl; [|exact Hb]. intros i. apply Hr.
Qed.

Lemma score_at_map (toLowerCase : jsstring -> jsstring) (cs cs' : list Chunk)
    (question question' : jsstring) :
  map (chunk_score toLowerCase (words toLowerCase question')) cs'
  = map (chunk_score toLowerCase (words toLowerCase question)) cs ->
  forall i, score_at toLowerCase cs' question' i = score_at toLowerCase cs question i.
Proof.
  intros E i. apply (f_equal (fun l => nth_error l i)) in E.
  rewrite !nth_error_map in E. unfold score_at.
  destruct (nth_error cs' i), (nth_error cs i); cbn [option_map] in E;
    congruence.
Qed.

(** C6: the selection reads the document at positions listed by descending
    score, positions of equal score in document order, the lower one first
    (the chunks carry no ordinal; the position is what the stable sort keeps).
    The positions are the best six with a positive score, or the first four
    when no chunk has one.  They are fixed by the scores alone: every call
    whose chunks have the same scores, position by position, selects the same
    positions; and two calls with the same chunk sequence and question are
    such calls. *)
Theorem C6_selected_deterministic_order (toLowerCase : jsstring -> jsstring)
    (cs : list Chunk) (question : jsstring) :
  exists idx : list nat,
    map (nth_error cs) idx = map Some (selected toLowerCase cs question)
    /\ ranked_selection (score_at toLowerCase cs question) (length cs) idx
    /\ forall (cs' : list Chunk) (question' : jsstring),
         map (chunk_score toLowerCase (words toLowerCase question')) cs'
         = map (chunk_score toLowerCase (words toLowerCase question)) cs ->
         map (nth_error cs') idx = map Some (selected toLowerCase cs' question').
Proof.
  destruct (selected_spec toLowerCase cs question) as (idx & Hmap & Hspec).
  exists idx. split; [exact Hmap|]. split; [exact Hspec|].
  intros cs' question' E.
  destruct (selected_spec toLowerCase cs' question') as (idx' & Hmap' & Hspec').
  assert (length cs' = length cs) as Hlen
    by (apply (f_equal (@length _)) in E; rewrite !length_map in E; exact E).
  rewrite Hlen in Hspec'.
  apply (ranked_selection_ext _ _ _ _ (score_at_map toLowerCase cs cs' question question' E))
    in Hspec'.
  rewrite (ranked_selection_unique _ _ _ _ Hspec Hspec'). exact Hmap'.
Qed.

Lemma C6_selected_deterministic_order_witness :
  map text (selected toLowerCase_ascii tie_chunks (js "Where is the CAT?"))
  = [js "cat cat"; js "cat"; js "a Cat"]
  /\ ranked_selection (score_at toLowerCase_ascii tie_chunks (js "Where is the CAT?"))
       (length tie_chunks) [1; 0; 2].
Proof.
  split; [vm_compute; reflexivity|].
  destruct (C6_selected_deterministic_order toLowerCase_ascii tie_chunks
              (js "Where is the CAT?")) as (idx & Hmap & Hspec & _).
  assert (idx = [1; 0; 2]) as <-; [|exact Hspec].
  assert (selected toLowerCase_ascii tie_chunks (js "Where is the CAT?")
          = [ {| id := js "1700000000000_1"; text := js "cat cat" |};
              {| id := js "1700000000000_0"; text := js "cat" |};
              {| id := js "1700000000000_2"; text := js "a Cat" |} ]) as E
    by (vm_compute; reflexivity).
  rewrite E in Hmap. clear E Hspec.
  destruct idx as [|i [|j [|k [|l idx] ] ] ]; try discriminate Hmap.
  cbn [map] in Hmap. injection Hmap as Hi Hj Hk.
  assert (i = 1) as ->.
  { destruct i as [ | [ | [ | [ | i ] ] ] ];
      [vm_compute in Hi; try discriminate Hi; reflexivity ..
      | unfold tie_chunks in Hi; cbn [nth_error] in Hi; destruct i; discriminate Hi]. }
  assert (j = 0) as ->.
  { destruct j as [ | [ | [ | [ | j ] ] ] ];
      [vm_compute in Hj; try discriminate Hj; reflexivity ..
      | unfold tie_chunks in Hj; cbn [nth_error] in Hj; destruct j; discriminate Hj]. }
  assert (k = 2) as ->.
  { destruct k as [ | [ | [ | [ | k ] ] ] ];
      [vm_compute in Hk; try discriminate Hk; reflexivity ..
      | unfold tie_chunks in Hk; cbn [nth_error] in Hk; destruct k; discriminate Hk]. }
  reflexivity.
Defined.


(** The selection reads the document at no more than six distinct positions.
    Either all of them have a positive score, and then every other chunk with a
    positive score ranks behind each selected one and six were selected; or no
    chunk of the document has a positive score and the positions are the first
    four. *)
Theorem selected_top_six (toLowerCase : jsstring -> jsstring) (cs : list Chunk)
    (question : jsstring) :
  exists idx : list nat,
    map (nth_error cs) idx = map Some (selected toLowerCase cs question)
    /\ List.NoDup idx
    /\ length idx <= 6
    /\ (Forall (fun i => 0 < score_at toLowerCase cs question i) idx
        \/ ((forall i, score_at toLowerCase cs question i = 0)
            /\ idx = seq 0 (min 4 (length cs))))
    /\ forall j, 0 < score_at toLowerCase cs question j -> ~ In j idx ->
         length idx = 6
         /\ Forall (fun i => ranks_before (score_at toLowerCase cs question) i j) idx.
Proof. apply selected_top. Qed.

(** A question without a token of three or more characters scores nothing, so
    the first four chunks of the document are selected. *)
Theorem short_words_fallback (toLowerCase : jsstring -> jsstring) (cs : list Chunk)
    (question : jsstring) :
  Forall (fun w => length w < 3) (words toLowerCase question) ->
  selected toLowerCase cs question = firstn 4 cs.
Proof.
  intros H. apply selected_fallback. apply List.Forall_forall. intros c _.
  rewrite chunk_score_sum.
  assert (List.filter (fun w => 3 <=? length w) (words toLowerCase question) = []) as ->;
    [|reflexivity].
  induction H as [|w ws Hw _ IH]; [reflexivity|]. cbn [List.filter].
  destruct (Nat.leb_spec 3 (length w)); [lia | exact IH].
Qed.

Lemma short_words_fallback_witness :
  Forall (fun w => length w < 3) (words toLowerCase_ascii (js "Is it OK?"))
  /\ selected toLowerCase_ascii sample_chunks (js "Is it OK?") = firstn 4 sample_chunks.
Proof.
  assert (Forall (fun w => length w < 3) (words toLowerCase_ascii (js "Is it OK?"))) as H
    by (vm_compute; repeat constructor).
  split; [exact H|].
  exact (short_words_fallback toLowerCase_ascii sample_chunks (js "Is it OK?") H).
Defined.

(** ** The prompt *)

Lemma join_mapi_nth {A} (f : A -> nat -> jsstring) (sep : jsstring) (l : list A)
    (k i : nat) (x : A) :
  nth_error l i = Some x ->
  exists pre post, join sep (mapi f k l) = pre ++ f x (k + i) ++ post.
Proof.
  revert k i. induction l as [|a l IH]; intros k i H; [destruct i; discriminate H|].
  destruct i as [|i]; cbn [nth_error] in H.
  - injection H as ->. rewrite Nat.add_0_r. cbn [mapi join].
    destruct (mapi f (S k) l) as [|y r].
    + exists [], []. rewrite app_nil_r. reflexivity.
    + exists [], (sep ++ join sep (y :: r)). reflexivity.
  - destruct (IH (S k) i H) as (pre & post & E).
    cbn [mapi join]. destruct (mapi f (S k) l) as [|y r] eqn:Em.
    + destruct l; [destruct i; discriminate H | discriminate Em].
    + exists (f a k ++ sep ++ pre), post. rewrite E.
      replace (S k + i) with (k + S i) by lia. rewrite <- !app_assoc. reflexivity.
Qed.

(** Every selected chunk is in the prompt with its whole text, under the label
    [Context i:] of its position counted from 1, and the question follows the
    context. *)
Theorem file_qa_prompt_sections (sel : list Chunk) (question : jsstring)
    (i : nat) (c : Chunk) :
  nth_error sel i = Some c ->
  exists pre post,
    file_qa_prompt sel question
    = pre ++ (js "Context " ++ number_to_string (N.of_nat (i + 1)) ++ js ":" ++ nl ++ text c)
          ++ post ++ js "Question: " ++ question ++ nl ++ nl ++ js "Answer:".
Proof.
  intros H.
  destruct (join_mapi_nth
              (fun c i => js "Context " ++ number_to_string (N.of_nat (i + 1))
                            ++ js ":" ++ nl ++ text c)
              (nl ++ nl ++ js "---" ++ nl ++ nl) sel 0 i c H) as (pre & post & E).
  assert (contextText sel
          = pre ++ (js "Context " ++ number_to_string (N.of_nat (i + 1))
                      ++ js ":" ++ nl ++ text c) ++ post) as E' by exact E.
  unfold file_qa_prompt. rewrite E'.
  exists (js "You are a helpful study assistant. Use the following extracted content from a user's uploaded file to answer the question. If the answer cannot be found in the context, say "
            ++ dquote ++ js "I cannot find the answer in the provided document." ++ dquote
            ++ js " Keep answers concise unless asked to explain." ++ nl ++ nl ++ pre),
         (post ++ nl ++ nl).
  repeat rewrite <- app_assoc. reflexivity.
Qed.

Lemma file_qa_prompt_sections_witness :
  nth_error sample_chunks 1 = Some {| id := js "1700000000000_1";
                                      text := js "Photosynthesis occurs in chloroplasts." |}
  /\ exists pre post,
       file_qa_prompt sample_chunks (js "Where?")
       = pre ++ (js "Context " ++ number_to_string (N.of_nat (1 + 1)) ++ js ":" ++ nl
                   ++ js "Photosynthesis occurs in chloroplasts.")
             ++ post ++ js "Question: " ++ js "Where?" ++ nl ++ nl ++ js "Answer:".
Proof.
  split; [reflexivity|].
  exact (file_qa_prompt_sections sample_chunks (js "Where?") 1 _ eq_refl).
Defined.

(** ** Uploads and queries together *)

Lemma blank_guard (t : jsstring) :
  all_whitespace t -> truthy t && (0 <? length (trim t)) = false.
Proof. intros H%trim_nil. rewrite H. apply andb_false_r. Qed.

Lemma nonblank_guard (t : jsstring) :
  ~ all_whitespace t -> truthy t && (0 <? length (trim t)) = true.
Proof.
  intros H. apply andb_true_intro. split.
  - destruct t; [destruct H; constructor | reflexivity].
  - apply Nat.ltb_lt. destruct (trim t) eqn:E; [|simpl; lia].
    destruct H. apply trim_nil. exact E.
Qed.

Lemma selected_nonempty (toLowerCase : jsstring -> jsstring) (cs : list Chunk)
    (q : jsstring) :
  cs <> [] ->
  selected toLowerCase cs q <> [] /\ length (selected toLowerCase cs q) <= 6.
Proof.
  intros Hcs. pose proof (selected_length toLowerCase cs q) as H. cbv zeta in H.
  assert (0 < length cs) by (destruct cs; [congruence | simpl; lia]).
  match type of H with
  | context [ ?n =? 0 ] => destruct (Nat.eqb_spec n 0)
  end; (split; [|lia]); intros E; rewrite E in H;
    change (length (@nil Chunk)) with 0 in H; lia.
Qed.

Section PipelineFacts.

Variable UPLOAD_DIR : jsstring.
Variable path_join : jsstring -> jsstring -> jsstring.
Variable JSON_stringify : json -> jsstring.
Variable JSON_parse : jsstring -> json + jsstring.
Variable toLowerCase : jsstring -> jsstring.
Variable groqClient : option (jsstring -> chat_opts -> (jsstring * json) + jsstring).
Variable extractAndParseJson : jsstring -> json.

Local Abbreviation metaPath' := (metaPath UPLOAD_DIR path_join).
Local Abbreviation load' := (load UPLOAD_DIR path_join JSON_parse).
Local Abbreviation save' := (save UPLOAD_DIR path_join JSON_stringify).
Local Abbreviation upload' := (upload UPLOAD_DIR path_join JSON_stringify groqClient).
Local Abbreviation file_qa' := (file_qa UPLOAD_DIR path_join JSON_parse toLowerCase groqClient).
Local Abbreviation file_quiz' :=
  (file_quiz UPLOAD_DIR path_join JSON_parse groqClient extractAndParseJson).

(** An upload with a file, the write of the sidecar file succeeding as every
    write to the modelled directory does: the handler writes the record to its
    sidecar file and answers 200 with the record, whatever the language model
    does.  [aiResponse] is [null] when no text was extracted or no client is
    configured; otherwise the model is called once, with the fixed
    instruction followed by the extracted text, and [aiResponse] is the text
    of its answer, or [null] when the call throws.  Without a file the handler
    answers 400 and writes nothing. *)
Theorem upload_always_saves (f : File.t) (extractedText : jsstring) (now : nat -> N)
    (record_id iso_now : jsstring) (fs : gmap jsstring jsstring) :
  let meta := upload_meta f extractedText now record_id iso_now in
  let prompt :=
    js "The following text was extracted from an uploaded file. Please analyze it and provide a helpful response:"
    ++ nl ++ nl ++ js "---" ++ nl ++ nl ++ extractedText in
  (exists a,
     upload' (Some f) extractedText now record_id iso_now fs
     = (Respond 200 (JObj [(js "ok", JBool true); (js "meta", meta_json meta);
                           (js "aiResponse", a)]),
        <[metaPath' (File.filename f) := JSON_stringify (meta_json meta)]> fs)
     /\ (all_whitespace extractedText -> a = JNull)
     /\ (groqClient = None -> a = JNull)
     /\ (forall chat, groqClient = Some chat -> ~ all_whitespace extractedText ->
         a = match chat prompt opts_upload with
             | inl (text, _) => JStr text
             | inr _ => JNull
             end))
  /\ upload' None extractedText now record_id iso_now fs
     = (error_response 400 (js "No file uploaded (field 'file')"), fs).
Proof.
  intros meta prompt. split; [|reflexivity].
  unfold upload, bind. rewrite save_spec. unfold ret.
  eexists. split; [reflexivity|]. split; [|split].
  - intros Hb. rewrite (blank_guard _ Hb). reflexivity.
  - intros ->. destruct (truthy extractedText && _); reflexivity.
  - intros chat -> Hn. rewrite (nonblank_guard _ Hn). reflexivity.
Qed.

(** Saving a record leaves every other sidecar file as it is: a lookup under a
    name with a different path gives what it gave before. *)
Theorem save_other_key (m : Meta.t) (key : jsstring) (fs : gmap jsstring jsstring) :
  metaPath' key <> metaPath' (Meta.filename m) ->
  fst (load' key (snd (save' m fs))) = fst (load' key fs).
Proof.
  intros Hne. rewrite !load_spec, save_spec. cbn [fst snd].
  rewrite lookup_insert_ne by congruence. reflexivity.
Qed.

(** Both query handlers answer 404 for a file name without a sidecar file and
    500, with the parser's message, for a sidecar file that does not parse;
    in both cases whether or not a language-model client is configured. *)
Theorem query_lookup_failures (f q : jsstring) (fs : gmap jsstring jsstring) :
  truthy f = true -> truthy q = true ->
  (fs !! metaPath' f = None ->
   fst (file_qa' (Some f) (Some q) fs) = error_response 404 (js "File metadata not found")
   /\ fst (file_quiz' (Some f) fs) = error_response 404 (js "File metadata not found"))
  /\ (forall data e, fs !! metaPath' f = Some data -> JSON_parse data = inr e ->
      fst (file_qa' (Some f) (Some q) fs) = error_response 500 e
      /\ fst (file_quiz' (Some f) fs) = error_response 500 e).
Proof.
  intros Hf Hq. unfold file_qa, file_quiz. rewrite Hf, Hq. unfold bind. cbn [andb].
  cbv beta iota. rewrite !load_spec. split.
  - intros ->. split; reflexivity.
  - intros data e -> ->. split; reflexivity.
Qed.

(** A query made after an upload, under the stored file name.  When no text
    was extracted the quiz handler answers 400 [No extracted text available].
    When there is text and a client, the question-answering handler calls the
    model with a prompt built from between one and six chunks of that upload,
    and answers with the model's text and the previews of exactly those chunks
    (or 500 with the error when the call throws). *)
Theorem upload_then_query (f : File.t) (extractedText : jsstring) (now : nat -> N)
    (record_id iso_now q : jsstring) (fs : gmap jsstring jsstring) :
  let meta := upload_meta f extractedText now record_id iso_now in
  let fs' := snd (upload' (Some f) extractedText now record_id iso_now fs) in
  JSON_parse (JSON_stringify (meta_json meta)) = inl (meta_json meta) ->
  truthy (File.filename f) = true -> truthy q = true ->
  (all_whitespace extractedText ->
   fst (file_quiz' (Some (File.filename f)) fs')
   = error_response 400 (js "No extracted text available"))
  /\ (~ all_whitespace extractedText ->
      forall chat, groqClient = Some chat ->
      exists sel,
        sel <> [] /\ length sel <= 6 /\ incl sel (chunker now extractedText)
        /\ fst (file_qa' (Some (File.filename f)) (Some q) fs')
           = match chat (file_qa_prompt sel q) opts_file_qa with
             | inl (text, raw) =>
                 Respond 200 (JObj [(js "ok", JBool true); (js "text", JStr text);
                                    (js "raw", raw); (js "usedChunks", usedChunks sel)])
             | inr e => error_response 500 e
             end).
Proof.
  intros meta fs' Hrt Hf Hq.
  assert (fs' !! metaPath' (File.filename f) = Some (JSON_stringify (meta_json meta))) as Hfs.
  { subst fs'. rewrite upload_saves, save_spec. cbn [snd]. apply lookup_insert_eq. }
  assert (chunks_or_empty (meta_json meta) = Some (chunker now extractedText)) as Hcs
    by apply chunks_or_empty_meta_json.
  split.
  - intros Hb. unfold file_quiz. rewrite Hf. unfold bind. cbv beta iota.
    rewrite load_spec, Hfs, Hrt, Hcs.
    rewrite (proj2 (chunker_blank now extractedText) Hb). reflexivity.
  - intros Hnb chat Hchat. exists (selected toLowerCase (chunker now extractedText) q).
    assert (chunker now extractedText <> []) as Hne
      by (intros E; apply Hnb, (chunker_blank now), E).
    destruct (selected_nonempty toLowerCase _ q Hne) as [H1 H2].
    split; [exact H1|]. split; [exact H2|]. split; [apply selected_incl|].
    unfold file_qa. rewrite Hf, Hq. unfold bind. cbn [andb]. cbv beta iota.
    rewrite load_spec, Hfs, Hrt, Hcs, Hchat.
    destruct (chat _ _) as [[t raw]|e]; reflexivity.
Qed.

End PipelineFacts.

Lemma save_other_key_witness :
  metaPath (js "uploads") sample_path_join (Meta.filename sample_meta_empty)
  <> metaPath (js "uploads") sample_path_join (Meta.filename sample_meta)
  /\ fst (load (js "uploads") sample_path_join sample_parse (Meta.filename sample_meta_empty)
            (snd (save (js "uploads") sample_path_join sample_print sample_meta empty_dir)))
     = NotFound.
Proof.
  assert (metaPath (js "uploads") sample_path_join (Meta.filename sample_meta_empty)
          <> metaPath (js "uploads") sample_path_join (Meta.filename sample_meta)) as H
    by (vm_compute; discriminate).
  split; [exact H|].
  rewrite (save_other_key (js "uploads") sample_path_join sample_print sample_parse
             sample_meta (Meta.filename sample_meta_empty) empty_dir H).
  reflexivity.
Defined.

Lemma query_lookup_failures_witness :
  fst (file_qa (js "uploads") sample_path_join sample_parse toLowerCase_ascii None
         (Some (js "missing.txt")) (Some (js "Anything?")) empty_dir)
  = error_response 404 (js "File metadata not found").
Proof.
  exact (proj1 (proj1 (query_lookup_failures (js "uploads") sample_path_join sample_parse
                          toLowerCase_ascii None (fun _ => JNull)
                          (js "missing.txt") (js "Anything?") empty_dir eq_refl eq_refl)
                  eq_refl)).
Defined.

Lemma upload_then_query_witness :
  fst (file_quiz (js "uploads") sample_path_join sample_parse (Some sample_client)
         (fun _ => JNull) (Some (File.filename sample_scan))
         (snd (upload (js "uploads") sample_path_join sample_print (Some sample_client)
                 (Some sample_scan) [] (fun _ => 1700000000001%N)
                 (js "1700000000001-p0q7zz") (js "2023-11-14T22:13:20.001Z") empty_dir)))
  = error_response 400 (js "No extracted text available").
Proof.
  assert (sample_parse (sample_print (meta_json
            (upload_meta sample_scan [] (fun _ => 1700000000001%N)
               (js "1700000000001-p0q7zz") (js "2023-11-14T22:13:20.001Z"))))
          = inl (meta_json
                   (upload_meta sample_scan [] (fun _ => 1700000000001%N)
                      (js "1700000000001-p0q7zz") (js "2023-11-14T22:13:20.001Z")))) as H
    by (vm_compute; reflexivity).
  exact (proj1 (upload_then_query (js "uploads") sample_path_join sample_print sample_parse
                  toLowerCase_ascii (Some sample_client) (fun _ => JNull)
                  sample_scan [] (fun _ => 1700000000001%N)
                  (js "1700000000001-p0q7zz") (js "2023-11-14T22:13:20.001Z")
                  (js "What?") empty_dir H eq_refl eq_refl)
           (List.Forall_nil _)).
Defined.

(** ** Extraction of JSON from the model's text *)

Lemma starts_with_cons_false (a c : code_unit) (lit s : jsstring) :
  c <> a -> starts_with (a :: lit) (c :: s) = false.
Proof.
  intros H. cbn [starts_with]. unfold code_unit_eqb.
  destruct (N.eqb_spec a c); [congruence | reflexivity].
Qed.

Lemma match_here_no_backtick (c : code_unit) (s : jsstring) :
  c <> 96%N -> match_here (c :: s) = None.
Proof.
  intros H. unfold match_here.
  change (js "```json") with (96%N :: js "``json").
  rewrite starts_with_cons_false by exact H. reflexivity.
Qed.

Lemma codeBlockMatch_no_backtick (s : jsstring) :
  Forall (fun c => c <> 96%N) s -> codeBlockMatch s = None.
Proof.
  induction 1 as [|c s Hc _ IH]; [reflexivity|].
  cbn [codeBlockMatch]. rewrite match_here_no_backtick by exact Hc. exact IH.
Qed.

Lemma codeBlockMatch_skip (pre s : jsstring) :
  Forall (fun c => c <> 96%N) pre -> codeBlockMatch (pre ++ s) = codeBlockMatch s.
Proof.
  induction 1 as [|c pre Hc _ IH]; [reflexivity|].
  cbn [app codeBlockMatch]. rewrite match_here_no_backtick by exact Hc. exact IH.
Qed.

Lemma indexOf_from_skip (c : code_unit) (pre s : jsstring) (i : nat) :
  Forall (fun d => d <> c) pre ->
  indexOf_from [c] (pre ++ s) i = indexOf_from [c] s (i + length pre).
Proof.
  intros H. revert i. induction H as [|d pre Hd _ IH]; intros i.
  - cbn [app length]. rewrite Nat.add_0_r. reflexivity.
  - cbn [app indexOf_from length]. rewrite starts_with_cons_false by exact Hd.
    rewrite IH. f_equal. lia.
Qed.

Lemma indexOf_from_here (c : code_unit) (s : jsstring) (i : nat) :
  indexOf_from [c] (c :: s) i = Some i.
Proof.
  cbn [indexOf_from starts_with]. unfold code_unit_eqb. rewrite N.eqb_refl. reflexivity.
Qed.

Lemma indexOf_from_none (c : code_unit) (s : jsstring) (i : nat) :
  Forall (fun d => d <> c) s -> indexOf_from [c] s i = None.
Proof.
  intros H. rewrite <- (app_nil_r s), indexOf_from_skip by exact H. reflexivity.
Qed.

Lemma indexOf_from_ge (pat s : jsstring) (i k : nat) :
  indexOf_from pat s i = Some k -> i <= k.
Proof.
  revert i. induction s as [|d s IH]; intros i; cbn [indexOf_from].
  - destruct (starts_with pat []); [intros [= <-]; lia | discriminate].
  - destruct (starts_with pat (d :: s)); [intros [= <-]; lia|].
    intros H%IH. lia.
Qed.

Lemma lastIndexOf_from_app (c : code_unit) (s t : jsstring) (i : nat) (last : option nat) :
  lastIndexOf_from c (s ++ t) i last
  = lastIndexOf_from c t (i + length s) (lastIndexOf_from c s i last).
Proof.
  revert i last. induction s as [|d s IH]; intros i last; cbn [app length lastIndexOf_from].
  - rewrite Nat.add_0_r. reflexivity.
  - rewrite IH. f_equal. lia.
Qed.

Lemma lastIndexOf_from_none (c : code_unit) (s : jsstring) (i : nat) (last : option nat) :
  Forall (fun d => d <> c) s -> lastIndexOf_from c s i last = last.
Proof.
  intros H. revert i last. induction H as [|d s Hd _ IH]; intros i last; [reflexivity|].
  cbn [lastIndexOf_from]. unfold code_unit_eqb.
  destruct (N.eqb_spec d c); [congruence | apply IH].
Qed.

Lemma lastIndexOf_from_bound (c : code_unit) (s : jsstring) (i : nat) (last : option nat)
    (k : nat) :
  lastIndexOf_from c s i last = Some k -> last = Some k \/ (i <= k < i + length s).
Proof.
  revert i last. induction s as [|d s IH]; intros i last; cbn [lastIndexOf_from length].
  - auto.
  - intros [H|H]%IH; [|right; lia].
    destruct (code_unit_eqb d c); [injection H as <-; right; lia | left; exact H].
Qed.

Lemma lazy_capture_sub (s acc cap : jsstring) :
  lazy_capture s acc = Some cap -> exists mid post, cap = rev acc ++ mid /\ s = mid ++ post.
Proof.
  revert acc. induction s as [|c s IH]; intros acc; cbn [lazy_capture].
  - destruct (ws_then_fence []); [|discriminate].
    intros [= <-]. exists [], []. rewrite app_nil_r. auto.
  - destruct (ws_then_fence (c :: s)).
    + intros [= <-]. exists [], (c :: s). rewrite app_nil_r. auto.
    + intros (mid & post & -> & ->)%IH. exists (c :: mid), post.
      cbn [rev]. rewrite <- app_assoc. auto.
Qed.

Lemma after_json_sub (s cap : jsstring) :
  after_json s = Some cap -> exists pre post, s = pre ++ cap ++ post.
Proof.
  assert (forall t, lazy_capture t [] = Some cap -> exists pre post, t = pre ++ cap ++ post)
    as Hlazy.
  { intros t (mid & post & -> & ->)%lazy_capture_sub. exists [], post. reflexivity. }
  induction s as [|c s IH]; cbn [after_json]; [apply Hlazy|].
  destruct (is_js_whitespace c); [|apply Hlazy].
  destruct (after_json s) as [cap'|]; [|apply Hlazy].
  intros [= ->]. destruct (IH eq_refl) as (pre & post & ->).
  exists (c :: pre), post. reflexivity.
Qed.

Lemma codeBlockMatch_sub (s cap : jsstring) :
  codeBlockMatch s = Some cap -> exists pre post, s = pre ++ cap ++ post.
Proof.
  induction s as [|c s IH]; cbn [codeBlockMatch].
  - unfold match_here. cbn [starts_with]. change (js "```json") with (96%N :: js "``json").
    cbn [starts_with]. discriminate.
  - destruct (match_here (c :: s)) as [cap'|] eqn:E.
    + intros [= ->]. unfold match_here in E.
      destruct (starts_with (js "```json") (c :: s)); [|discriminate E].
      apply after_json_sub in E as (pre & post & E).
      exists (firstn 7 (c :: s) ++ pre), post.
      rewrite <- (firstn_skipn 7 (c :: s)) at 1. rewrite E, <- app_assoc. reflexivity.
    + intros (pre & post & ->)%IH. exists (c :: pre), post. reflexivity.
Qed.

Section ExtractFacts.

Variable JSON_parse : jsstring -> json + jsstring.

Lemma extract_no_candidate (text : jsstring) :
  Forall (fun c => c <> 123%N /\ c <> 91%N /\ c <> 96%N) text ->
  extractAndParseJson JSON_parse text = JNull.
Proof.
  intros H. unfold extractAndParseJson.
  destruct (negb (truthy text)); [reflexivity|].
  rewrite codeBlockMatch_no_backtick
    by (eapply List.Forall_impl; [|exact H]; simpl; tauto).
  unfold first_bracket, indexOf.
  change (js "{") with [123%N]. change (js "[") with [91%N].
  rewrite !indexOf_from_none
    by (eapply List.Forall_impl; [|exact H]; simpl; tauto).
  reflexivity.
Qed.

Lemma extract_provenance (text : jsstring) :
  extractAndParseJson JSON_parse text = JNull
  \/ exists pre sub post,
       text = pre ++ sub ++ post
       /\ JSON_parse sub = inl (extractAndParseJson JSON_parse text).
Proof.
  unfold extractAndParseJson.
  destruct (negb (truthy text)); [left; reflexivity|].
  assert (forall start,
            let jsonString := skipn start text in
            match JSON_parse jsonString with
            | inl v => v
            | inr _ =>
                match last_bracket jsonString with
                | Some e =>
                    match JSON_parse (firstn (e + 1) jsonString) with
                    | inl v => v
                    | inr _ => JNull
                    end
                | None => JNull
                end
            end = JNull
            \/ exists pre sub post,
                 text = pre ++ sub ++ post
                 /\ JSON_parse sub
                    = inl match JSON_parse jsonString with
                          | inl v => v
                          | inr _ =>
                              match last_bracket jsonString with
                              | Some e =>
                                  match JSON_parse (firstn (e + 1) jsonString) with
                                  | inl v => v
                                  | inr _ => JNull
                                  end
                              | None => JNull
                              end
                          end) as Hbr.
  { intros start jsonString.
    destruct (JSON_parse jsonString) as [v|e] eqn:E1.
    - right. exists (firstn start text), jsonString, [].
      rewrite app_nil_r. split; [symmetry; apply firstn_skipn | exact E1].
    - destruct (last_bracket jsonString) as [k|]; [|left; reflexivity].
      destruct (JSON_parse (firstn (k + 1) jsonString)) as [v|e'] eqn:E2;
        [|left; reflexivity].
      right. exists (firstn start text), (firstn (k + 1) jsonString),
               (skipn (k + 1) jsonString).
      split; [|exact E2]. rewrite firstn_skipn. symmetry. apply firstn_skipn. }
  destruct (codeBlockMatch text) as [cap|] eqn:Ecap.
  - destruct (truthy cap).
    + destruct (JSON_parse cap) as [v|e] eqn:Ev.
      * right. apply codeBlockMatch_sub in Ecap as (pre & post & ->).
        exists pre, cap, post. auto.
      * destruct (first_bracket text) as [start|]; [apply Hbr | left; reflexivity].
    + destruct (first_bracket text) as [start|]; [apply Hbr | left; reflexivity].
  - destruct (first_bracket text) as [start|]; [apply Hbr | left; reflexivity].
Qed.

End ExtractFacts.

(** A text without a brace, a bracket or a backquote yields [null], whatever
    [JSON.parse] would accept: nothing of it is a candidate. *)
Theorem extractAndParseJson_no_candidate
    (JSON_parse : jsstring -> json + jsstring) (text : jsstring) :
  Forall (fun c => c <> 123%N /\ c <> 91%N /\ c <> 96%N) text ->
  extractAndParseJson JSON_parse text = JNull.
Proof. apply extract_no_candidate. Qed.

Lemma extractAndParseJson_no_candidate_witness :
  extractAndParseJson (fun _ => inl (JBool true)) (js "I have no idea.") = JNull.
Proof.
  apply (extractAndParseJson_no_candidate (fun _ => inl (JBool true)) (js "I have no idea.")).
  vm_compute. repeat constructor; discriminate.
Defined.

(** The function invents nothing: its result is [null] or the value that
    [JSON.parse] gives for a contiguous part of the text. *)
Theorem extractAndParseJson_provenance
    (JSON_parse : jsstring -> json + jsstring) (text : jsstring) :
  extractAndParseJson JSON_parse text = JNull
  \/ exists pre sub post,
       text = pre ++ sub ++ post
       /\ JSON_parse sub = inl (extractAndParseJson JSON_parse text).
Proof. apply extract_provenance. Qed.

Lemma ws_then_fence_intro (ws post : jsstring) :
  all_whitespace ws -> ws_then_fence (ws ++ js "```" ++ post) = true.
Proof.
  induction 1 as [|c ws Hc _ IH].
  - cbn [app]. destruct (js "```" ++ post) eqn:E; cbn [ws_then_fence];
      rewrite <- ?E;
      (replace (starts_with (js "```") (js "```" ++ post)) with true
         by (symmetry; apply starts_with_app; exists post; reflexivity));
      [discriminate E | reflexivity].
  - cbn [app ws_then_fence]. rewrite Hc, IH. apply orb_true_r.
Qed.

Lemma not_all_whitespace (s : jsstring) :
  s <> [] -> starts_clean (rev s) -> ~ all_whitespace s.
Proof.
  intros Hne Hclean Hall. unfold all_whitespace in Hall. apply Forall_rev in Hall.
  destruct (rev s) as [|x r] eqn:E.
  - apply (f_equal (@rev _)) in E. rewrite rev_involutive in E. auto.
  - inversion Hall; subst. simpl in Hclean. congruence.
Qed.

Lemma ws_then_fence_false (s rest : jsstring) :
  Forall (fun c => c <> 96%N) s -> ~ all_whitespace s ->
  ws_then_fence (s ++ rest) = false.
Proof.
  induction 1 as [|c s Hc Hs IH]; intros Hnot.
  - exfalso. apply Hnot. constructor.
  - cbn [app ws_then_fence]. change (js "```") with (96%N :: js "``").
    rewrite starts_with_cons_false by exact Hc. cbn [orb].
    destruct (is_js_whitespace c) eqn:Hw; [cbn [andb] | reflexivity].
    apply IH. intros Hall. apply Hnot. constructor; assumption.
Qed.

Lemma starts_clean_app_l (a b : jsstring) :
  a <> [] -> starts_clean (a ++ b) -> starts_clean a.
Proof. destruct a; [congruence | intros _ H; exact H]. Qed.

Lemma lazy_capture_body (body rest acc : jsstring) :
  Forall (fun c => c <> 96%N) body ->
  (body = [] \/ starts_clean (rev body)) ->
  ws_then_fence rest = true ->
  lazy_capture (body ++ rest) acc = Some (rev acc ++ body).
Proof.
  intros Hb. revert acc. induction Hb as [|c body Hc Hb IH]; intros acc Hclean Hrest.
  - cbn [app]. rewrite app_nil_r.
    destruct rest; cbn [lazy_capture]; rewrite Hrest; reflexivity.
  - destruct Hclean as [Hnil|Hclean]; [discriminate Hnil|].
    assert (ws_then_fence (c :: body ++ rest) = false) as Hf.
    { apply (ws_then_fence_false (c :: body) rest); [constructor; assumption|].
      apply not_all_whitespace; [discriminate | exact Hclean]. }
    cbn [app lazy_capture].
    match goal with
    | |- (if ?b then _ else _) = _ => replace b with false by (symmetry; exact Hf)
    end.
    rewrite IH; [cbn [rev]; rewrite <- app_assoc; reflexivity | | exact Hrest].
    destruct body as [|d body']; [left; reflexivity | right].
    cbn [rev] in Hclean |- *. apply (starts_clean_app_l _ [c]); [|exact Hclean].
    intros E. apply app_eq_nil in E as [_ E]. discriminate E.
Qed.

Lemma after_json_body (ws body rest : jsstring) :
  all_whitespace ws -> body <> [] -> starts_clean body -> starts_clean (rev body) ->
  Forall (fun c => c <> 96%N) body -> ws_then_fence rest = true ->
  after_json (ws ++ body ++ rest) = Some body.
Proof.
  intros Hws Hne Hhead Hlast Hb Hrest.
  induction Hws as [|c ws Hc _ IH].
  - cbn [app]. destruct body as [|b body']; [congruence|].
    cbn [app after_json]. simpl in Hhead. rewrite Hhead.
    apply (lazy_capture_body (b :: body') rest []); auto.
  - cbn [app after_json]. rewrite Hc, IH. reflexivity.
Qed.

Lemma first_bracket_at (pre : jsstring) (o : code_unit) (rest : jsstring) :
  (o = 123%N \/ o = 91%N) ->
  Forall (fun c => c <> 123%N /\ c <> 91%N) pre ->
  first_bracket (pre ++ o :: rest) = Some (length pre).
Proof.
  intros Ho Hpre. unfold first_bracket, indexOf.
  assert (indexOf_from (js "{") (pre ++ o :: rest) 0
          = indexOf_from (js "{") (o :: rest) (length pre)) as ->
    by (apply (indexOf_from_skip 123%N pre (o :: rest) 0);
        eapply List.Forall_impl; [|exact Hpre]; simpl; tauto).
  assert (indexOf_from (js "[") (pre ++ o :: rest) 0
          = indexOf_from (js "[") (o :: rest) (length pre)) as ->
    by (apply (indexOf_from_skip 91%N pre (o :: rest) 0);
        eapply List.Forall_impl; [|exact Hpre]; simpl; tauto).
  destruct Ho as [-> | ->].
  - assert (indexOf_from (js "{") ((123%N : code_unit) :: rest) (length pre) = Some (length pre)) as ->
      by apply (indexOf_from_here 123%N).
    destruct (indexOf_from (js "[") ((123%N : code_unit) :: rest) (length pre)) as [k|] eqn:E;
      [|reflexivity].
    apply indexOf_from_ge in E. f_equal. lia.
  - assert (indexOf_from (js "[") ((91%N : code_unit) :: rest) (length pre) = Some (length pre)) as ->
      by apply (indexOf_from_here 91%N).
    destruct (indexOf_from (js "{") ((91%N : code_unit) :: rest) (length pre)) as [k|] eqn:E;
      [|reflexivity].
    apply indexOf_from_ge in E. f_equal. lia.
Qed.

Section ExtractShapes.

Variable JSON_parse : jsstring -> json + jsstring.

Lemma extract_fenced (pre ws1 body ws2 post : jsstring) :
  Forall (fun c => c <> 96%N) pre ->
  all_whitespace ws1 -> all_whitespace ws2 ->
  body <> [] -> starts_clean body -> starts_clean (rev body) ->
  Forall (fun c => c <> 96%N) body ->
  let text := pre ++ js "```json" ++ ws1 ++ body ++ ws2 ++ js "```" ++ post in
  codeBlockMatch text = Some body
  /\ forall v, JSON_parse body = inl v -> extractAndParseJson JSON_parse text = v.
Proof.
  intros Hpre Hws1 Hws2 Hne Hhead Hlast Hb text.
  assert (codeBlockMatch text = Some body) as Hcap.
  { subst text. rewrite codeBlockMatch_skip by exact Hpre.
    assert (match_here (js "```json" ++ ws1 ++ body ++ ws2 ++ js "```" ++ post) = Some body)
      as Hm.
    { unfold match_here.
      replace (starts_with (js "```json") (js "```json" ++ ws1 ++ body ++ ws2 ++ js "```" ++ post))
        with true by (symmetry; apply starts_with_app; eexists; reflexivity).
      change (skipn 7 (js "```json" ++ ws1 ++ body ++ ws2 ++ js "```" ++ post))
        with (ws1 ++ body ++ ws2 ++ js "```" ++ post).
      apply after_json_body; auto. apply ws_then_fence_intro, Hws2. }
    change (js "```json" ++ ws1 ++ body ++ ws2 ++ js "```" ++ post)
      with (96%N :: (js "``json" ++ ws1 ++ body ++ ws2 ++ js "```" ++ post)) in *.
    cbn [codeBlockMatch]. rewrite Hm. reflexivity. }
  split; [exact Hcap|]. intros v Hv. unfold extractAndParseJson.
  assert (truthy text = true) as -> by (subst text; destruct pre; reflexivity).
  cbn [negb]. rewrite Hcap.
  assert (truthy body = true) as -> by (destruct body; [congruence | reflexivity]).
  rewrite Hv. reflexivity.
Qed.

Lemma extract_embedded (pre mid post : jsstring) (o cl : code_unit) :
  (o = 123%N \/ o = 91%N) -> (cl = 125%N \/ cl = 93%N) ->
  Forall (fun c => c <> 123%N /\ c <> 91%N) pre ->
  Forall (fun c => c <> 125%N /\ c <> 93%N) post ->
  Forall (fun c => c <> 96%N) (pre ++ (o :: mid ++ [cl]) ++ post) ->
  extractAndParseJson JSON_parse (pre ++ (o :: mid ++ [cl]) ++ post)
  = match JSON_parse ((o :: mid ++ [cl]) ++ post) with
    | inl v => v
    | inr _ =>
        match JSON_parse (o :: mid ++ [cl]) with
        | inl v => v
        | inr _ => JNull
        end
    end.
Proof.
  intros Ho Hcl Hpre Hpost Htick. unfold extractAndParseJson.
  assert (truthy (pre ++ (o :: mid ++ [cl]) ++ post) = true) as ->
    by (destruct pre; reflexivity).
  cbn [negb]. rewrite (codeBlockMatch_no_backtick _ Htick).
  assert (first_bracket (pre ++ (o :: mid ++ [cl]) ++ post) = Some (length pre)) as ->
    by exact (first_bracket_at pre o ((mid ++ [cl]) ++ post) Ho Hpre).
  assert (skipn (length pre) (pre ++ (o :: mid ++ [cl]) ++ post) = (o :: mid ++ [cl]) ++ post)
    as -> by (rewrite skipn_app, skipn_all, Nat.sub_diag; reflexivity).
  destruct (JSON_parse ((o :: mid ++ [cl]) ++ post)) as [v|e]; [reflexivity|].
  assert (last_bracket ((o :: mid ++ [cl]) ++ post) = Some (S (length mid))) as ->.
  { assert (forall d, (d = 125%N \/ d = 93%N) ->
              lastIndexOf d ((o :: mid ++ [cl]) ++ post)
              = if code_unit_eqb cl d then Some (S (length mid))
                else lastIndexOf_from d (o :: mid) 0 None) as Hlast.
    { intros d Hd. unfold lastIndexOf.
      rewrite lastIndexOf_from_app.
      rewrite (lastIndexOf_from_none d post)
        by (eapply List.Forall_impl; [|exact Hpost]; simpl; intros a Ha; destruct Hd; subst d; tauto).
      change (o :: mid ++ [cl]) with ((o :: mid) ++ [cl]).
      rewrite lastIndexOf_from_app. cbn [lastIndexOf_from length Nat.add].
      reflexivity. }
    unfold last_bracket. rewrite !Hlast by auto.
    assert (forall d k, lastIndexOf_from d (o :: mid) 0 None = Some k -> k <= length mid)
      as Hb.
    { intros d k [H|H]%lastIndexOf_from_bound; [discriminate H | cbn [length] in H; lia]. }
    unfold code_unit_eqb. destruct Hcl as [-> | ->]; cbn [N.eqb Pos.eqb].
    - destruct (lastIndexOf_from 93%N (o :: mid) 0 None) as [k|] eqn:E; [|reflexivity].
      apply Hb in E. f_equal. lia.
    - destruct (lastIndexOf_from 125%N (o :: mid) 0 None) as [k|] eqn:E; [|reflexivity].
      apply Hb in E. f_equal. lia. }
  assert (firstn (S (length mid) + 1) ((o :: mid ++ [cl]) ++ post) = o :: mid ++ [cl]) as ->.
  { rewrite firstn_app.
    replace (S (length mid) + 1 - length (o :: mid ++ [cl])) with 0
      by (cbn [length]; rewrite length_app; cbn [length]; lia).
    rewrite firstn_all2 by (cbn [length]; rewrite length_app; cbn [length]; lia).
    cbn [firstn]. apply app_nil_r. }
  reflexivity.
Qed.

End ExtractShapes.

(** A fenced [json] block is found and wins: when the text has such a block
    after a part without backquote, the capture is the block's content without
    the surrounding whitespace, and when that content parses its value is the
    result, whatever braces or brackets the rest of the text contains. *)
Theorem extractAndParseJson_fenced
    (JSON_parse : jsstring -> json + jsstring) (pre ws1 body ws2 post : jsstring) :
  Forall (fun c => c <> 96%N) pre ->
  all_whitespace ws1 -> all_whitespace ws2 ->
  body <> [] -> starts_clean body -> starts_clean (rev body) ->
  Forall (fun c => c <> 96%N) body ->
  let text := pre ++ js "```json" ++ ws1 ++ body ++ ws2 ++ js "```" ++ post in
  codeBlockMatch text = Some body
  /\ forall v, JSON_parse body = inl v -> extractAndParseJson JSON_parse text = v.
Proof. apply extract_fenced. Qed.

(** A text without backquote whose first brace or bracket opens a part that
    ends at the last closing brace or bracket: the result is the parse of
    everything from the opening on when that parses, otherwise the parse of
    the part alone, otherwise [null]; the prose before it is skipped. *)
Theorem extractAndParseJson_embedded
    (JSON_parse : jsstring -> json + jsstring) (pre mid post : jsstring)
    (o cl : code_unit) :
  (o = 123%N \/ o = 91%N) -> (cl = 125%N \/ cl = 93%N) ->
  Forall (fun c => c <> 123%N /\ c <> 91%N) pre ->
  Forall (fun c => c <> 125%N /\ c <> 93%N) post ->
  Forall (fun c => c <> 96%N) (pre ++ (o :: mid ++ [cl]) ++ post) ->
  extractAndParseJson JSON_parse (pre ++ (o :: mid ++ [cl]) ++ post)
  = match JSON_parse ((o :: mid ++ [cl]) ++ post) with
    | inl v => v
    | inr _ =>
        match JSON_parse (o :: mid ++ [cl]) with
        | inl v => v
        | inr _ => JNull
        end
    end.
Proof. apply extract_embedded. Qed.

Lemma extractAndParseJson_fenced_witness :
  extractAndParseJson sample_parse
    ((js "Here:" ++ nl) ++ js "```json" ++ nl ++ js "[1,2]" ++ nl ++ js "```" ++ js " done {")
  = JArr [JNum 1; JNum 2].
Proof.
  refine (proj2 (extractAndParseJson_fenced sample_parse (js "Here:" ++ nl) nl (js "[1,2]") nl
                   (js " done {") _ _ _ _ _ _ _) _ _).
  - vm_compute. repeat constructor; discriminate.
  - repeat constructor.
  - repeat constructor.
  - discriminate.
  - reflexivity.
  - reflexivity.
  - vm_compute. repeat constructor; discriminate.
  - vm_compute. reflexivity.
Defined.

Lemma extractAndParseJson_embedded_witness :
  extractAndParseJson sample_parse
    (js "Sure: " ++ (91%N :: js "1,2" ++ [93%N]) ++ js " Hope it helps.")
  = JArr [JNum 1; JNum 2].
Proof.
  etransitivity.
  - refine (extractAndParseJson_embedded sample_parse (js "Sure: ") (js "1,2")
              (js " Hope it helps.") 91%N 93%N (or_intror eq_refl) (or_intror eq_refl) _ _ _).
    + vm_compute. repeat (constructor; [split; discriminate|]). constructor.
    + vm_compute. repeat (constructor; [split; discriminate|]). constructor.
    + vm_compute. repeat (constructor; [discriminate|]). constructor.
  - vm_compute. reflexivity.
Defined.

(** When the model's answer contains no brace, bracket or backquote, the quiz
    handler (with [extractAndParseJson] as written) answers 500 [Failed to parse
    JSON from AI response] and returns the answer in [aillm_response]. *)
Theorem file_quiz_unparsable_answer
    (UPLOAD_DIR : jsstring) (path_join : jsstring -> jsstring -> jsstring)
    (JSON_parse : jsstring -> json + jsstring)
    (chat : jsstring -> chat_opts -> (jsstring * json) + jsstring)
    (f data text : jsstring) (meta raw : json) (cs : list Chunk)
    (fs : gmap jsstring jsstring) :
  truthy f = true ->
  fs !! metaPath UPLOAD_DIR path_join f = Some data ->
  JSON_parse data = inl meta ->
  chunks_or_empty meta = Some cs -> cs <> [] ->
  chat (file_quiz_prompt cs) opts_file_quiz = inl (text, raw) ->
  Forall (fun c => c <> 123%N /\ c <> 91%N /\ c <> 96%N) text ->
  fst (file_quiz UPLOAD_DIR path_join JSON_parse (Some chat)
         (extractAndParseJson JSON_parse) (Some f) fs)
  = Respond 500 (JObj [(js "ok", JBool false);
                       (js "error", JStr (js "Failed to parse JSON from AI response"));
                       (js "aillm_response", JStr text)]).
Proof.
  intros Hf Hfs Hparse Hcs Hne Hchat Htext.
  unfold file_quiz. rewrite Hf. unfold bind. cbv beta iota.
  rewrite load_spec, Hfs, Hparse, Hcs.
  destruct cs as [|c cs']; [congruence|]. cbn [length Nat.eqb].
  rewrite Hchat, (extract_no_candidate JSON_parse text Htext). reflexivity.
Qed.

Lemma file_quiz_unparsable_answer_witness :
  fst (file_quiz (js "uploads") sample_path_join sample_parse (Some sample_client)
         (extractAndParseJson sample_parse) (Some (Meta.filename sample_meta))
         (snd (save (js "uploads") sample_path_join sample_print sample_meta empty_dir)))
  = Respond 500 (JObj [(js "ok", JBool false);
                       (js "error", JStr (js "Failed to parse JSON from AI response"));
                       (js "aillm_response",
                        JStr (js "I cannot find the answer in the provided document."))]).
Proof.
  refine (file_quiz_unparsable_answer (js "uploads") sample_path_join sample_parse
            sample_client (Meta.filename sample_meta)
            (sample_print (meta_json sample_meta))
            (js "I cannot find the answer in the provided document.")
            (meta_json sample_meta) JNull (Meta.chunks sample_meta) _
            eq_refl _ _ _ _ eq_refl _).
  - rewrite save_spec. cbn [snd]. apply lookup_insert_eq.
  - vm_compute. reflexivity.
  - apply chunks_or_empty_meta_json.
  - vm_compute. discriminate.
  - vm_compute. repeat (constructor; [repeat split; discriminate|]). constructor.
Defined.

(** ** The prompt wrapper of [POST /api/ai] *)

Lemma last_of_cons (p : code_unit) (s : jsstring) (prev : option code_unit) :
  last_of (p :: s) prev = last_of s (Some p).
Proof.
  unfold last_of. cbn [rev]. destruct (rev s) as [|x r]; reflexivity.
Qed.

Lemma test_word_letter (l c : code_unit) (pre post : jsstring) (prev : option code_unit) :
  match last_of pre prev with Some x => is_word_char x = false | None => True end ->
  match post with y :: _ => is_word_char y = false | [] => True end ->
  is_word_char c = true -> ci_eqb l c = true ->
  test_word [l] prev (pre ++ c :: post) = true.
Proof.
  intros Hpre Hpost Hc Hl. revert prev Hpre.
  induction pre as [|p pre IH]; intros prev Hpre.
  - cbn [app test_word]. unfold word_here.
    cbn [hd_error starts_with_ci length]. rewrite Hl.
    change (firstn 1 (c :: post)) with [c]. change (skipn 1 (c :: post)) with post.
    unfold last_of in *. cbn [rev app] in *. unfold word_boundary. rewrite Hc.
    destruct prev as [x|]; [rewrite Hpre|];
      (destruct post as [|y post']; cbn [hd_error]; [|rewrite Hpost]); reflexivity.
  - cbn [app test_word]. rewrite last_of_cons in Hpre. rewrite (IH (Some p) Hpre).
    apply orb_true_r.
Qed.

Section AiFacts.

Variable toLowerCase : jsstring -> jsstring.

Lemma wrapper_priority (body : json) (prompt : jsstring) :
  let lower := toLowerCase prompt in
  let d := match get "difficulty" body with
           | Some (JStr ((_ :: _) as x)) => toLowerCase x
           | _ => []
           end in
  wrapperPrompt toLowerCase body prompt
  = (if jsstring_eqb d (js "beginner") || jsstring_eqb d (js "easy") then wrap_beginner
     else if jsstring_eqb d (js "intermediate") || jsstring_eqb d (js "medium")
     then wrap_intermediate
     else if jsstring_eqb d (js "expert") || jsstring_eqb d (js "hard") then wrap_expert
     else if truthy_opt (get "stepByStep" body) then wrap_steps
     else if truthy_opt (get "latex" body) || latex_regex prompt then wrap_latex
     else if isMCQ lower || isOneMark lower then wrap_short
     else if useDetailed (get "detailed" body) prompt then wrap_detailed
     else wrap_default) ++ prompt.
Proof.
  intros lower d. unfold wrapperPrompt. fold lower.
  assert (forall x : jsstring,
            (if jsstring_eqb x (js "beginner") || jsstring_eqb x (js "easy")
             then wrap_beginner ++ prompt
             else if jsstring_eqb x (js "intermediate") || jsstring_eqb x (js "medium")
             then wrap_intermediate ++ prompt
             else if jsstring_eqb x (js "expert") || jsstring_eqb x (js "hard")
             then wrap_expert ++ prompt
             else (if truthy_opt (get "stepByStep" body) then wrap_steps ++ prompt
                   else if truthy_opt (get "latex" body) || latex_regex prompt
                   then wrap_latex ++ prompt
                   else if isMCQ lower || isOneMark lower then wrap_short ++ prompt
                   else if useDetailed (get "detailed" body) prompt
                   then wrap_detailed ++ prompt
                   else wrap_default ++ prompt))
            = (if jsstring_eqb x (js "beginner") || jsstring_eqb x (js "easy")
               then wrap_beginner
               else if jsstring_eqb x (js "intermediate") || jsstring_eqb x (js "medium")
               then wrap_intermediate
               else if jsstring_eqb x (js "expert") || jsstring_eqb x (js "hard")
               then wrap_expert
               else if truthy_opt (get "stepByStep" body) then wrap_steps
               else if truthy_opt (get "latex" body) || latex_regex prompt then wrap_latex
               else if isMCQ lower || isOneMark lower then wrap_short
               else if useDetailed (get "detailed" body) prompt then wrap_detailed
               else wrap_default) ++ prompt) as Htable.
  { intros x.
    destruct (jsstring_eqb x (js "beginner") || jsstring_eqb x (js "easy")); [reflexivity|].
    destruct (jsstring_eqb x (js "intermediate") || jsstring_eqb x (js "medium"));
      [reflexivity|].
    destruct (jsstring_eqb x (js "expert") || jsstring_eqb x (js "hard")); [reflexivity|].
    destruct (truthy_opt (get "stepByStep" body)); [reflexivity|].
    destruct (truthy_opt (get "latex" body) || latex_regex prompt); [reflexivity|].
    destruct (isMCQ lower || isOneMark lower); [reflexivity|].
    destruct (useDetailed (get "detailed" body) prompt); reflexivity. }
  subst d. destruct (get "difficulty" body) as [ [ | b | n | [ | c x ] | l | f ] | ];
    try apply Htable; exact (Htable []).
Qed.

Lemma standalone_letter_mcq (prompt pre post : jsstring) (c : code_unit) :
  toLowerCase prompt = pre ++ c :: post ->
  (c = 97%N \/ c = 98%N \/ c = 99%N \/ c = 100%N) ->
  match last_of pre None with Some x => is_word_char x = false | None => True end ->
  match post with y :: _ => is_word_char y = false | [] => True end ->
  isMCQ (toLowerCase prompt) = true.
Proof.
  intros E Hc Hpre Hpost. unfold isMCQ, choice_regex. rewrite E.
  assert (c = 97%N -> test_word (js "a") None (pre ++ c :: post) = true) as Ha
    by (intros ->; exact (test_word_letter 97%N 97%N pre post None Hpre Hpost eq_refl eq_refl)).
  assert (c = 98%N -> test_word (js "b") None (pre ++ c :: post) = true) as Hb
    by (intros ->; exact (test_word_letter 98%N 98%N pre post None Hpre Hpost eq_refl eq_refl)).
  assert (c = 99%N -> test_word (js "c") None (pre ++ c :: post) = true) as Hc'
    by (intros ->; exact (test_word_letter 99%N 99%N pre post None Hpre Hpost eq_refl eq_refl)).
  assert (c = 100%N -> test_word (js "d") None (pre ++ c :: post) = true) as Hd
    by (intros ->; exact (test_word_letter 100%N 100%N pre post None Hpre Hpost eq_refl eq_refl)).
  destruct Hc as [H | [H | [H | H] ] ].
  - rewrite (Ha H). rewrite !orb_true_r. reflexivity.
  - rewrite (Hb H). rewrite !orb_true_r. reflexivity.
  - rewrite (Hc' H). rewrite !orb_true_r. reflexivity.
  - rewrite (Hd H). rewrite !orb_true_r. reflexivity.
Qed.

End AiFacts.

(** The prompt sent to the model is one of eight fixed instructions followed by
    the user's prompt, verbatim.  The instruction is chosen by priority: a
    recognised [difficulty] first, then [stepByStep], then LaTeX (flag or
    pattern), then the short-answer form (multiple choice or one mark), then
    the detailed form, and the default last. *)
Theorem api_ai_wrapper_priority (toLowerCase : jsstring -> jsstring) (body : json)
    (prompt : jsstring) :
  let lower := toLowerCase prompt in
  let d := match get "difficulty" body with
           | Some (JStr ((_ :: _) as x)) => toLowerCase x
           | _ => []
           end in
  wrapperPrompt toLowerCase body prompt
  = (if jsstring_eqb d (js "beginner") || jsstring_eqb d (js "easy") then wrap_beginner
     else if jsstring_eqb d (js "intermediate") || jsstring_eqb d (js "medium")
     then wrap_intermediate
     else if jsstring_eqb d (js "expert") || jsstring_eqb d (js "hard") then wrap_expert
     else if truthy_opt (get "stepByStep" body) then wrap_steps
     else if truthy_opt (get "latex" body) || latex_regex prompt then wrap_latex
     else if isMCQ lower || isOneMark lower then wrap_short
     else if useDetailed (get "detailed" body) prompt then wrap_detailed
     else wrap_default) ++ prompt.
Proof. apply wrapper_priority. Qed.

(** A prompt whose lower-case form contains one of the letters a, b, c, d
    standing alone (no word character next to it) counts as multiple choice:
    unless LaTeX, [stepByStep] or a recognised [difficulty] takes over, the
    model is asked for a one-line answer only. *)
Theorem api_ai_standalone_letter (toLowerCase : jsstring -> jsstring) (body : json)
    (prompt pre post : jsstring) (c : code_unit) :
  toLowerCase prompt = pre ++ c :: post ->
  (c = 97%N \/ c = 98%N \/ c = 99%N \/ c = 100%N) ->
  match last_of pre None with Some x => is_word_char x = false | None => True end ->
  match post with y :: _ => is_word_char y = false | [] => True end ->
  get "difficulty" body = None -> get "stepByStep" body = None ->
  get "latex" body = None -> latex_regex prompt = false ->
  isMCQ (toLowerCase prompt) = true
  /\ wrapperPrompt toLowerCase body prompt = wrap_short ++ prompt.
Proof.
  intros E Hc Hpre Hpost Hd Hs Hl Hr.
  pose proof (standalone_letter_mcq toLowerCase prompt pre post c E Hc Hpre Hpost) as Hm.
  split; [exact Hm|].
  rewrite wrapper_priority. rewrite Hd, Hs, Hl, Hr, Hm. reflexivity.
Qed.

Lemma api_ai_standalone_letter_witness :
  wrapperPrompt toLowerCase_ascii (JObj [(js "prompt", JStr (js "What is a cell?"))])
    (js "What is a cell?")
  = wrap_short ++ js "What is a cell?".
Proof.
  refine (proj2 (api_ai_standalone_letter toLowerCase_ascii
                   (JObj [(js "prompt", JStr (js "What is a cell?"))])
                   (js "What is a cell?") (js "what is ") (js " cell?") 97%N
                   _ (or_introl eq_refl) _ _ eq_refl eq_refl eq_refl _)).
  - vm_compute. reflexivity.
  - vm_compute. reflexivity.
  - vm_compute. reflexivity.
  - vm_compute. reflexivity.
Defined.

(** Validation comes first: a body whose [prompt] is missing, not a string, or
    empty or blank gets 400 [Missing prompt in body], whether or not a client
    is configured and whatever the client would answer. *)
Theorem api_ai_validation (toLowerCase : jsstring -> jsstring)
    (groqClient : option (jsstring -> ai_opts -> (jsstring * json) + jsstring))
    (body : json) :
  (forall p, get "prompt" body = Some (JStr p) -> all_whitespace p) ->
  api_ai toLowerCase groqClient body = error_response 400 (js "Missing prompt in body").
Proof.
  intros H. unfold api_ai.
  destruct (get "prompt" body) as [ [ | b | n | p | l | f ] | ]; try reflexivity.
  specialize (H p eq_refl). apply trim_nil in H. rewrite H.
  rewrite andb_false_r. reflexivity.
Qed.

Lemma api_ai_validation_witness :
  api_ai toLowerCase_ascii (Some (fun _ _ => inl (js "ok", JNull)))
    (JObj [(js "prompt", JStr (js "   "))])
  = error_response 400 (js "Missing prompt in body").
Proof.
  apply (api_ai_validation toLowerCase_ascii (Some (fun _ _ => inl (js "ok", JNull)))
           (JObj [(js "prompt", JStr (js "   "))])).
  intros p [= <-]. vm_compute. repeat constructor.
Defined.

(** The token budget handed to the model is the request's [max_tokens] when
    that is truthy; otherwise it is 1500 when [detailed] or [latex] is truthy or
    the prompt asks for one and a half page, and 900 in every other case.  It
    is never a falsy value. *)
Lemma api_ai_token_budget (body : json) (prompt : jsstring) :
  truthy_json (tokens body prompt) = true
  /\ (truthy_opt (get "max_tokens" body) = true ->
      Some (tokens body prompt) = get "max_tokens" body)
  /\ (truthy_opt (get "max_tokens" body) = false ->
      tokens body prompt
      = if truthy_opt (get "detailed" body) || truthy_opt (get "latex" body)
           || page_regex prompt
        then JNum 1500 else JNum 900).
Proof.
  unfold tokens, truthy_opt.
  destruct (get "max_tokens" body) as [v|].
  - destruct (truthy_json v) eqn:Hv.
    + split; [exact Hv|]. split; [reflexivity | discriminate].
    + split; [|split; [discriminate | reflexivity]].
      destruct (_ || _ || _); reflexivity.
  - split; [|split; [discriminate | reflexivity]].
    destruct (_ || _ || _); reflexivity.
Qed.

(** ** The bracket check *)

Lemma split_char_length (ch : code_unit) (s cur : jsstring) :
  length (split_char ch s cur) = S (length (List.filter (fun d => code_unit_eqb d ch) s)).
Proof.
  revert cur. induction s as [|d s IH]; intros cur; cbn [split_char List.filter]; [reflexivity|].
  destruct (code_unit_eqb d ch); cbn [length]; rewrite IH; reflexivity.
Qed.

(** [countChars(s, ch)] is the number of occurrences of [ch] in [s]. *)
Theorem countChars_occurrences (s : jsstring) (ch : code_unit) :
  countChars s ch = count_occ N.eq_dec s ch.
Proof.
  unfold countChars. rewrite split_char_length. cbn [Nat.sub]. rewrite Nat.sub_0_r.
  induction s as [|d s IH]; [reflexivity|]. cbn [List.filter count_occ].
  unfold code_unit_eqb in *. destruct (N.eqb_spec d ch), (N.eq_dec d ch); try congruence;
    cbn [length]; rewrite ?IH; reflexivity.
Qed.

Lemma run_stack_app (stack : list code_unit) (a b : jsstring) :
  run_stack stack (a ++ b)
  = match run_stack stack a with
    | Some stack' => run_stack stack' b
    | None => None
    end.
Proof.
  revert stack. induction a as [|ch a IH]; intros stack; [reflexivity|].
  cbn [app run_stack]. destruct (opening ch); [apply IH|].
  destruct (closing ch); [|apply IH].
  destruct stack as [|top rest]; [reflexivity|].
  destruct (code_unit_eqb top c); [apply IH | reflexivity].
Qed.

Lemma closing_opening (c o : code_unit) :
  closing c = Some o -> opening c = None /\ opening o <> None.
Proof.
  unfold closing, opening.
  destruct (N.eqb_spec c 125) as [->|]; [intros [= <-]; split; [reflexivity | discriminate]|].
  destruct (N.eqb_spec c 41) as [->|]; [intros [= <-]; split; [reflexivity | discriminate]|].
  destruct (N.eqb_spec c 93) as [->|]; [intros [= <-]; split; [reflexivity | discriminate]|].
  discriminate.
Qed.

Lemma balanced_run (s : jsstring) :
  balanced s -> forall stack, run_stack stack s = Some stack.
Proof.
  induction 1 as [|c s Ho Hc _ IH|o c s t Hc _ IHs _ IHt]; intros stack.
  - reflexivity.
  - cbn [run_stack]. rewrite Ho, Hc. apply IH.
  - destruct (closing_opening c o Hc) as [Hco Hoo].
    cbn [run_stack]. destruct (opening o) eqn:Eo; [|congruence].
    rewrite run_stack_app, IHs. cbn [run_stack]. rewrite Hco, Hc.
    unfold code_unit_eqb. rewrite N.eqb_refl. apply IHt.
Qed.

Lemma balanced_app (a b : jsstring) : balanced a -> balanced b -> balanced (a ++ b).
Proof.
  intros Ha Hb. induction Ha as [|c s Ho Hc _ IH|o c s t Hc Hs _ _ IHt]; cbn [app].
  - exact Hb.
  - apply balanced_other; assumption.
  - rewrite <- app_assoc. cbn [app]. apply balanced_pair; assumption.
Qed.

Lemma closes_balanced_front (stack : list code_unit) (b s : jsstring) :
  balanced b -> closes stack s -> closes stack (b ++ s).
Proof.
  intros Hb. destruct stack as [|o stack]; cbn [closes].
  - apply balanced_app, Hb.
  - intros (b' & c & rest & -> & Hb' & Hc & Hrest).
    exists (b ++ b'), c, rest. rewrite <- app_assoc.
    split; [reflexivity|]. split; [apply balanced_app; assumption | auto].
Qed.

Lemma run_closes (s : jsstring) :
  forall stack, run_stack stack s = Some [] -> closes stack s.
Proof.
  induction s as [|ch s IH]; intros stack H; cbn [run_stack] in H.
  - injection H as ->. apply balanced_nil.
  - destruct (opening ch) eqn:Eo.
    + apply IH in H. cbn [closes] in H. destruct H as (b & c' & rest & -> & Hb & Hc & Hrest).
      replace (ch :: b ++ c' :: rest) with ((ch :: b ++ c' :: []) ++ rest)
        by (cbn [app]; rewrite <- app_assoc; reflexivity).
      apply closes_balanced_front; [|exact Hrest].
      apply balanced_pair; [exact Hc | exact Hb | apply balanced_nil].
    + destruct (closing ch) as [o|] eqn:Ec.
      * destruct stack as [|top rest]; [discriminate H|].
        unfold code_unit_eqb in H. destruct (N.eqb_spec top o) as [->|]; [|discriminate H].
        apply IH in H. cbn [closes]. exists [], ch, s.
        split; [reflexivity|]. split; [apply balanced_nil | auto].
      * apply IH in H.
        change (ch :: s) with ([ch] ++ s). apply closes_balanced_front; [|exact H].
        apply balanced_other; [assumption | assumption | apply balanced_nil].
Qed.

(** The scan with positions agrees with the scan without: it writes no message
    exactly when the plain scan succeeds, and then the stacks hold the same
    characters. *)
Lemma scan_chars_run (line : jsstring) (i k : nat) (stack : list opened)
    (log : list message) :
  match run_stack (map o_ch stack) line with
  | Some cs => snd (scan_chars i k line (stack, log)) = log
               /\ map o_ch (fst (scan_chars i k line (stack, log))) = cs
  | None => exists m more, snd (scan_chars i k line (stack, log)) = log ++ m :: more
  end.
Proof.
  assert (forall line i k stack log m more,
            exists m' more', snd (scan_chars i k line (stack, (log ++ m :: more)))
                             = log ++ m' :: more') as Hgrow.
  { clear. induction line as [|ch line IH]; intros i k stack log m more.
    - exists m, more. reflexivity.
    - cbn [scan_chars]. unfold scan_step.
      destruct (opening ch); [apply IH|].
      destruct (closing ch); [|apply IH].
      destruct stack as [|top rest].
      + rewrite <- app_assoc. cbn [app]. apply IH.
      + destruct (code_unit_eqb (o_ch top) c); [apply IH|].
        rewrite <- app_assoc. cbn [app]. apply IH. }
  revert k stack log. induction line as [|ch line IH]; intros k stack log.
  - cbn [run_stack scan_chars fst snd]. auto.
  - cbn [run_stack scan_chars]. unfold scan_step.
    destruct (opening ch).
    + apply (IH (S k) ({| o_ch := ch; o_line := i + 1; o_col := k + 1 |} :: stack) log).
    + destruct (closing ch) as [o|]; [|apply IH].
      destruct stack as [|top rest]; cbn [map].
      * apply (Hgrow line i (S k) [] log _ []).
      * destruct (code_unit_eqb (o_ch top) o); [apply IH|].
        apply (Hgrow line i (S k) (top :: rest) log _ []).
Qed.

Lemma scan_lines_run (lines : list jsstring) (i : nat) (stack : list opened)
    (log : list message) :
  match run_stack (map o_ch stack) (concat lines) with
  | Some cs => snd (scan_lines i lines (stack, log)) = log
               /\ map o_ch (fst (scan_lines i lines (stack, log))) = cs
  | None => exists m more, snd (scan_lines i lines (stack, log)) = log ++ m :: more
  end.
Proof.
  assert (forall lines i stack log m more,
            exists m' more', snd (scan_lines i lines (stack, (log ++ m :: more)))
                             = log ++ m' :: more') as Hgrow.
  { clear. induction lines as [|line lines IH]; intros i stack log m more.
    - exists m, more. reflexivity.
    - cbn [scan_lines].
      pose proof (scan_chars_run line i 0 stack (log ++ m :: more)) as H.
      destruct (scan_chars i 0 line (stack, log ++ m :: more)) as [stack' log'].
      cbn [fst snd] in H.
      destruct (run_stack (map o_ch stack) line).
      + destruct H as [-> _]. apply IH.
      + destruct H as (m' & more' & ->). rewrite <- app_assoc. cbn [app]. apply IH. }
  revert i stack log. induction lines as [|line lines IH]; intros i stack log.
  - cbn [concat run_stack scan_lines fst snd]. auto.
  - cbn [concat scan_lines]. rewrite run_stack_app.
    pose proof (scan_chars_run line i 0 stack log) as H.
    destruct (scan_chars i 0 line (stack, log)) as [stack' log'].
    cbn [fst snd] in H.
    destruct (run_stack (map o_ch stack) line) as [cs|].
    + destruct H as [-> <-]. apply IH.
    + destruct H as (m & more & ->). apply Hgrow.
Qed.

Lemma run_stack_lines (s cur : jsstring) (stack : list code_unit) :
  run_stack stack (concat (split_char 10%N s cur)) = run_stack stack (rev cur ++ s).
Proof.
  revert cur stack. induction s as [|d s IH]; intros cur stack; cbn [split_char].
  - cbn [concat]. reflexivity.
  - unfold code_unit_eqb. destruct (N.eqb_spec d 10) as [->|Hd].
    + cbn [concat]. rewrite !run_stack_app.
      destruct (run_stack stack (rev cur)) as [stack'|]; [|reflexivity].
      rewrite IH. reflexivity.
    + rewrite IH. cbn [rev]. rewrite <- app_assoc. reflexivity.
Qed.

Lemma check_braces_spec (script : jsstring) :
  check_braces script = ([], AllBalanced) <-> balanced script.
Proof.
  unfold check_braces.
  pose proof (scan_lines_run (split_char 10%N script []) 0 [] []) as H.
  destruct (scan_lines 0 (split_char 10%N script []) ([], [])) as [stack log].
  cbn [fst snd map] in H. rewrite run_stack_lines in H. cbn [rev app] in H.
  split.
  - intros E. assert (log = [] /\ stack = []) as [-> ->]
      by (destruct stack; [injection E as ->; auto | discriminate E]).
    destruct (run_stack [] script) as [cs|] eqn:Er.
    + destruct H as [_ <-]. apply (run_closes script [] Er).
    + destruct H as (m & more & H). discriminate H.
  - intros Hb. rewrite (balanced_run script Hb []) in H. destruct H as [-> H].
    destruct stack; [reflexivity | discriminate H].
Qed.

(** The bracket scan writes no message and ends with the all-clear exactly when
    the braces, parentheses and square brackets of the text are properly
    nested. *)
Theorem check_braces_balanced (script : jsstring) :
  check_braces script = ([], AllBalanced) <-> balanced script.
Proof. apply check_braces_spec. Qed.

(** ** Instances on sample inputs *)

Lemma chunker_nil_iff_blank_witness : chunker now0 (js "   ") = [].
Proof.
  apply (proj2 (chunker_nil_iff_blank now0 (js "   "))).
  vm_compute. repeat constructor.
Defined.

Lemma found_literal_witness : 0 < found (js "cell") (js "the cell wall").
Proof.
  apply (proj2 (proj1 (proj2 (found_literal (js "cell") (js "the cell wall"))))).
  exists (js "the "), (js " wall"). reflexivity.
Defined.

Lemma selected_top_six_witness :
  exists idx : list nat,
    map (nth_error sample_chunks) idx
    = map Some (selected toLowerCase_ascii sample_chunks (js "alpha"))
    /\ List.NoDup idx
    /\ length idx <= 6.
Proof.
  destruct (selected_top_six toLowerCase_ascii sample_chunks (js "alpha"))
    as (idx & H1 & H2 & H3 & _).
  exists idx. repeat split; assumption.
Defined.

Lemma upload_always_saves_witness :
  upload (js "uploads") sample_path_join sample_print (Some sample_client)
    (Some sample_notes) (js "short paragraph") now0
    (js "1700000000000-k3x9ab") (js "2023-11-14T22:13:20.000Z") empty_dir
  = (Respond 200
       (JObj [(js "ok", JBool true);
              (js "meta", meta_json (upload_meta sample_notes (js "short paragraph") now0
                                       (js "1700000000000-k3x9ab")
                                       (js "2023-11-14T22:13:20.000Z")));
              (js "aiResponse",
               JStr (js "I cannot find the answer in the provided document."))]),
     <[metaPath (js "uploads") sample_path_join (js "1700000000000-notes.txt")
       := sample_print (meta_json (upload_meta sample_notes (js "short paragraph") now0
                                     (js "1700000000000-k3x9ab")
                                     (js "2023-11-14T22:13:20.000Z")))]> empty_dir).
Proof.
  assert (~ all_whitespace (js "short paragraph")) as Hn.
  { intros H. vm_compute in H. inversion H as [|? ? Hc _]. discriminate Hc. }
  destruct (upload_always_saves (js "uploads") sample_path_join sample_print
              (Some sample_client) sample_notes (js "short paragraph") now0
              (js "1700000000000-k3x9ab") (js "2023-11-14T22:13:20.000Z") empty_dir)
    as ((a & E & _ & _ & Ha) & _).
  rewrite E, (Ha sample_client eq_refl Hn). reflexivity.
Defined.

Lemma check_braces_balanced_witness : balanced (js "f(a[0]){ g(); }").
Proof.
  apply (proj1 (check_braces_balanced (js "f(a[0]){ g(); }"))).
  vm_compute. reflexivity.
Defined.
